(** * RetopoFlow editing-session engine ([rfmode/rfcontext.py])

    A shallow embedding of [RFContext]: the undo / redo history over the
    target mesh, the modal event step with its [main] mode handler, and the
    spatial queries that are reduced over the list of source meshes.

    Python objects that are shared by reference (the [RFTarget] instances
    held by the context and by the history snapshots) live in an object
    store indexed by identity; [copy.deepcopy] allocates a new identity.
    Methods that mutate [self] are written in a small state-and-exception
    monad over the context record. *)

From Stdlib Require Import String ZArith Bool List Lia PrimFloat.
From stdpp Require Import list.
Import ListNotations.
Open Scope string_scope.
Open Scope list_scope.

(** ** Python values shared by all parts *)

(** What a method hands back when its result is [None] or a boolean. *)
Inductive PyValue : Type :=
| PyNone
| PyBool (b : bool).

(** Python truth value of such a result ([None] is falsy). *)
Definition py_truth (v : PyValue) : bool :=
  match v with
  | PyNone => false
  | PyBool b => b
  end.

(** The exceptions the embedded code can meet. *)
Inductive Exn : Type :=
| AssertionError
| TypeError
| KeyError
| AttributeError
| OtherException.

(** Identity of an [RFTarget] object in the object store. *)
Abbreviation addr := nat (only parsing).

(** An [RFTool] instance: its class (the tool's [name()]) and its identity. *)
Record RFTool : Type := mkTool {
  tool_class : string;
  tool_id : nat
}.

(** [self.tool == tool]: tools do not override [__eq__]. *)
Definition RFTool_eqb (a b : RFTool) : bool :=
  String.eqb (tool_class a) (tool_class b) && Nat.eqb (tool_id a) (tool_id b).

(** One entry of the [undo] / [redo] deques, the dict built by
    [_create_state]: ['action'], ['tool'] (a reference to the tool) and
    ['rftarget'] (a reference to the deep copy). *)
Record State : Type := mkState {
  st_action : string;
  st_tool : RFTool;
  st_rftarget : addr
}.

(** Calls the engine makes on its collaborators (tools, widgets, renderer,
    host), recorded in program order. [FSM_call m] records the invocation of
    the handler bound to mode [m]. *)
Inductive Call : Type :=
| tool_start (t : RFTool)
| tool_update_tool_options (t : RFTool)
| tool_update (t : RFTool)
| tool_selection_min_set_option (name : string)
| tool_selection_max_set_option (name : string)
| rftarget_draw_replace_rfmesh (a : addr)
| instrument_text_write (action : string)
| toggle_tool_help
| save_as_mainfile
| window_manager_modal
| actions_unuse (action : string)
| set_cursor (glyph : string)
| rfwidget_clear
| rfwidget_update
| profiler_printout
| profiler_clear
| print (message : string)
| print_exception_info
| alert_user (level : string)
| FSM_call (m : string).

(** ** Methods as state transformers that may raise

    A method of the context is a function from the context before the call
    to its result (a value or a raised exception) and the context after it.
    A raised exception keeps the mutations made so far, as in Python. *)

Definition StExn (S A : Type) : Type := S -> (A + Exn) * S.

Definition ret {S A : Type} (a : A) : StExn S A := fun c => (inl a, c).

Definition raise {S A : Type} (e : Exn) : StExn S A := fun c => (inr e, c).

Definition bind {S A B : Type} (m : StExn S A) (k : A -> StExn S B) : StExn S B :=
  fun c =>
    match m c with
    | (inl a, c') => k a c'
    | (inr e, c') => (inr e, c')
    end.

Definition get {S : Type} : StExn S S := fun c => (inl c, c).

Definition modify {S : Type} (f : S -> S) : StExn S unit :=
  fun c => (inl tt, f c).

(** A pure computation that may raise, run inside a method. *)
Definition lift {S A : Type} (r : A + Exn) : StExn S A := fun c => (r, c).

(** Result and final state of running a method. *)
Definition result {S A : Type} (m : StExn S A) (c : S) : A + Exn := fst (m c).
Definition exec {S A : Type} (m : StExn S A) (c : S) : S := snd (m c).

Notation "'let!' x ':=' m 'in' k" := (bind m (fun x => k))
  (at level 10, x name, m at level 100, k at level 200).
Notation "'do!' m 'in' k" := (bind m (fun _ => k))
  (at level 10, m at level 100, k at level 200).

Section Model.

(** The carrier types of the collaborators that are outside this core: mesh
    topology, points, normals, hit distances, rays, planes, screen points
    and the segments a crawl yields. *)
Context {Mesh Point Normal Dist Ray Plane Point2D Crawl : Type}.

(** ** The target mesh *)

(** Modelled from the spec: the class [RFTarget] (rfmesh.py) is not among
    the sources. The target mesh "owns its topology (vertices, edges, faces)
    and a dirty flag". *)
Record RFTarget : Type := mkTarget {
  topology : Mesh;
  is_dirty : bool
}.

(** Modelled from the spec: [RFTarget.rewrap] re-binds the element wrappers
    to this mesh and leaves the mesh as it is. *)
Definition rewrap (t : RFTarget) : RFTarget := t.

(** Modelled from the spec: [RFTarget.dirty] marks the mesh dirty, which
    invalidates what was derived from it. *)
Definition dirty (t : RFTarget) : RFTarget :=
  {| topology := topology t; is_dirty := true |}.

(** ** The sources *)

(** The 4-tuple [(point, normal, index, distance)] of a raycast or
    nearest-point query; each component may be [None]. *)
Definition Hit4 : Type :=
  (option Point * option Normal * option Z * option Dist)%type.

Definition no_hit : Hit4 := (None, None, None, None).

(** The interface of one [RFSource] (rfmesh.py, not among the sources): the
    methods [RFContext] calls on it. *)
Record RFSource : Type := mkSource {
  raycast : Ray -> Hit4;
  raycast_all : Ray -> list Hit4;
  raycast_hit : Ray -> bool;
  nearest : Point -> Dist -> Hit4;
  plane_intersection_crawl_of : Ray -> Plane -> list Crawl;
  plane_intersection_walk_crawl_of : Ray -> Plane -> list Crawl;
  plane_intersections_crawl_of : Plane -> list Crawl
}.

(** ** The context *)

(** [RFContext] from the end of [__init__] on (the attribute [tool] exists).
    The deques [undo] and [redo] are lists whose head is the right end of
    the deque: [append] is [cons], [pop] takes the head, [popleft] removes
    the last element. *)
Record RFContext : Type := mkContext {
  undo : list State;
  redo : list State;
  undo_depth : nat;
  tool : RFTool;
  rftarget : addr;
  heap : list RFTarget;
  mode : string;
  nav : bool;
  time_to_save : option float;
  exit_flag : bool;
  rfsources : list RFSource;
  actions_hit_pos : option Point;
  actions_hit_norm : option Normal;
  next_tool_id : nat;
  options_instrument : bool;
  trace : list Call
}.

Definition set_undo (u : list State) (c : RFContext) : RFContext :=
  mkContext u (redo c) (undo_depth c) (tool c) (rftarget c) (heap c) (mode c)
    (nav c) (time_to_save c) (exit_flag c) (rfsources c) (actions_hit_pos c)
    (actions_hit_norm c) (next_tool_id c) (options_instrument c) (trace c).

Definition set_redo (r : list State) (c : RFContext) : RFContext :=
  mkContext (undo c) r (undo_depth c) (tool c) (rftarget c) (heap c) (mode c)
    (nav c) (time_to_save c) (exit_flag c) (rfsources c) (actions_hit_pos c)
    (actions_hit_norm c) (next_tool_id c) (options_instrument c) (trace c).

Definition set_tool_field (t : RFTool) (c : RFContext) : RFContext :=
  mkContext (undo c) (redo c) (undo_depth c) t (rftarget c) (heap c) (mode c)
    (nav c) (time_to_save c) (exit_flag c) (rfsources c) (actions_hit_pos c)
    (actions_hit_norm c) (next_tool_id c) (options_instrument c) (trace c).

Definition set_rftarget (a : addr) (c : RFContext) : RFContext :=
  mkContext (undo c) (redo c) (undo_depth c) (tool c) a (heap c) (mode c)
    (nav c) (time_to_save c) (exit_flag c) (rfsources c) (actions_hit_pos c)
    (actions_hit_norm c) (next_tool_id c) (options_instrument c) (trace c).

Definition set_heap (h : list RFTarget) (c : RFContext) : RFContext :=
  mkContext (undo c) (redo c) (undo_depth c) (tool c) (rftarget c) h (mode c)
    (nav c) (time_to_save c) (exit_flag c) (rfsources c) (actions_hit_pos c)
    (actions_hit_norm c) (next_tool_id c) (options_instrument c) (trace c).

Definition set_mode (m : string) (c : RFContext) : RFContext :=
  mkContext (undo c) (redo c) (undo_depth c) (tool c) (rftarget c) (heap c) m
    (nav c) (time_to_save c) (exit_flag c) (rfsources c) (actions_hit_pos c)
    (actions_hit_norm c) (next_tool_id c) (options_instrument c) (trace c).

Definition set_nav (b : bool) (c : RFContext) : RFContext :=
  mkContext (undo c) (redo c) (undo_depth c) (tool c) (rftarget c) (heap c)
    (mode c) b (time_to_save c) (exit_flag c) (rfsources c)
    (actions_hit_pos c) (actions_hit_norm c) (next_tool_id c)
    (options_instrument c) (trace c).

Definition set_time_to_save (t : option float) (c : RFContext) : RFContext :=
  mkContext (undo c) (redo c) (undo_depth c) (tool c) (rftarget c) (heap c)
    (mode c) (nav c) t (exit_flag c) (rfsources c) (actions_hit_pos c)
    (actions_hit_norm c) (next_tool_id c) (options_instrument c) (trace c).

Definition set_actions_hit (p : option Point) (n : option Normal)
    (c : RFContext) : RFContext :=
  mkContext (undo c) (redo c) (undo_depth c) (tool c) (rftarget c) (heap c)
    (mode c) (nav c) (time_to_save c) (exit_flag c) (rfsources c) p n
    (next_tool_id c) (options_instrument c) (trace c).

Definition set_next_tool_id (n : nat) (c : RFContext) : RFContext :=
  mkContext (undo c) (redo c) (undo_depth c) (tool c) (rftarget c) (heap c)
    (mode c) (nav c) (time_to_save c) (exit_flag c) (rfsources c)
    (actions_hit_pos c) (actions_hit_norm c) n (options_instrument c)
    (trace c).

Definition set_trace (t : list Call) (c : RFContext) : RFContext :=
  mkContext (undo c) (redo c) (undo_depth c) (tool c) (rftarget c) (heap c)
    (mode c) (nav c) (time_to_save c) (exit_flag c) (rfsources c)
    (actions_hit_pos c) (actions_hit_norm c) (next_tool_id c)
    (options_instrument c) t.

(** Methods of [RFContext]. *)
Definition M (A : Type) : Type := StExn RFContext A.

(** A call on a collaborator: appended to the trace. *)
Definition call (e : Call) : M unit :=
  modify (fun c => set_trace (trace c ++ [e]) c).

(** ** Undo / redo stack operations *)

(** [copy.deepcopy(self.rftarget)]: a new object holding the contents of the
    live target. The second branch is never taken in a context whose
    references denote objects. *)
Definition deepcopy_rftarget : M addr :=
  fun c =>
    match heap c !! rftarget c with
    | Some t => (inl (length (heap c)), set_heap (heap c ++ [t]) c)
    | None => (inl (rftarget c), c)
    end.

(** A method of [RFTarget] run on the object [self.rftarget] denotes. *)
Definition on_rftarget (f : RFTarget -> RFTarget) : M unit :=
  modify (fun c => set_heap (alter f (rftarget c) (heap c)) c).

Definition set_tool (t : RFTool) (forceUpdate : bool) : M PyValue :=
  let! c := get in
  if negb forceUpdate && RFTool_eqb (tool c) t then ret PyNone
  else
    do! modify (set_tool_field t) in
    do! call (tool_start t) in
    do! call (tool_update_tool_options t) in
    do! call (tool_update t) in
    do! call (tool_selection_min_set_option (tool_class t)) in
    do! call (tool_selection_max_set_option (tool_class t)) in
    ret PyNone.

Definition _create_state (action : string) : M State :=
  let! c := get in
  let! copy := deepcopy_rftarget in
  ret {| st_action := action; st_tool := tool c; st_rftarget := copy |}.

Definition _restore_state (state : State) : M PyValue :=
  do! modify (set_rftarget (st_rftarget state)) in
  do! on_rftarget rewrap in
  do! on_rftarget dirty in
  do! call (rftarget_draw_replace_rfmesh (st_rftarget state)) in
  do! set_tool (st_tool state) true in
  ret PyNone.

Definition instrument_write (action : string) : M PyValue :=
  let! c := get in
  if negb (options_instrument c) then ret PyNone
  else
    do! call (instrument_text_write action) in
    ret PyNone.

(** [while len(self.undo) > self.undo_depth: self.undo.popleft()], with one
    unit of fuel per iteration. *)
Fixpoint limit_stack_size (fuel depth : nat) (u : list State) : list State :=
  match fuel with
  | O => u
  | S fuel' =>
      if (depth <? length u)%nat then limit_stack_size fuel' depth (removelast u)
      else u
  end.

(** [repeatable and self.undo and self.undo[-1]['action'] == action] *)
Definition repeating (action : string) (repeatable : bool) (c : RFContext) : bool :=
  repeatable &&
  match undo c with
  | [] => false
  | top :: _ => String.eqb (st_action top) action
  end.

Definition undo_push (action : string) (repeatable : bool) : M PyValue :=
  let! c := get in
  if repeating action repeatable c then ret PyNone
  else
    let! state := _create_state action in
    do! modify (fun c => set_undo (state :: undo c) c) in
    do! modify (fun c =>
          set_undo (limit_stack_size (length (undo c)) (undo_depth c) (undo c)) c) in
    do! modify (set_redo []) in
    do! instrument_write action in
    ret PyNone.

Definition undo_pop : M PyValue :=
  let! c := get in
  match undo c with
  | [] => ret PyNone
  | top :: rest =>
      let! state := _create_state "undo" in
      do! modify (fun c => set_redo (state :: redo c) c) in
      do! modify (set_undo rest) in
      do! _restore_state top in
      do! instrument_write "undo" in
      ret PyNone
  end.

Definition undo_cancel : M PyValue :=
  let! c := get in
  match undo c with
  | [] => ret PyNone
  | top :: rest =>
      do! modify (set_undo rest) in
      do! _restore_state top in
      do! instrument_write "cancel (undo)" in
      ret PyNone
  end.

Definition redo_pop : M PyValue :=
  let! c := get in
  match redo c with
  | [] => ret PyNone
  | top :: rest =>
      let! state := _create_state "redo" in
      do! modify (fun c => set_undo (state :: undo c) c) in
      do! modify (set_redo rest) in
      do! _restore_state top in
      do! instrument_write "redo" in
      ret PyNone
  end.

(** An edit a tool makes on the live target mesh, in place. *)
Definition mutate (f : Mesh -> Mesh) : M unit :=
  on_rftarget (fun t => {| topology := f (topology t); is_dirty := is_dirty t |}).

(** The topology of the live target mesh. *)
Definition live_topology (c : RFContext) : option Mesh :=
  topology <$> heap c !! rftarget c.

(** The topology a snapshot holds. *)
Definition snapshot_topology (c : RFContext) (s : State) : option Mesh :=
  topology <$> heap c !! st_rftarget s.

(** Scripts over the history, as tools and commands drive it. *)
Inductive HistoryOp : Type :=
| op_push (action : string) (repeatable : bool)
| op_undo
| op_redo
| op_cancel
| op_mutate (f : Mesh -> Mesh).

Definition run_op (o : HistoryOp) (c : RFContext) : RFContext :=
  match o with
  | op_push action repeatable => exec (undo_push action repeatable) c
  | op_undo => exec undo_pop c
  | op_redo => exec redo_pop c
  | op_cancel => exec undo_cancel c
  | op_mutate f => exec (mutate f) c
  end.

Definition run_ops (ops : list HistoryOp) (c : RFContext) : RFContext :=
  fold_left (fun c o => run_op o c) ops c.

(** [N] pushes (never repeatable), each after an edit of the live mesh. *)
Definition push_script (l : list ((Mesh -> Mesh) * string)) : list HistoryOp :=
  flat_map (fun fa => [op_mutate (fst fa); op_push (snd fa) false]) l.

(** [M] pops, each after an edit of the live mesh. *)
Definition pop_script (l : list (Mesh -> Mesh)) : list HistoryOp :=
  flat_map (fun f => [op_mutate f; op_undo]) l.

(** No two references of the context denote the same [RFTarget] object, and
    each denotes an object of the store. *)
Definition snapshot_refs (c : RFContext) : list addr :=
  st_rftarget <$> (undo c ++ redo c).

Definition wf_context (c : RFContext) : Prop :=
  NoDup (rftarget c :: snapshot_refs c) /\
  Forall (fun a => a < length (heap c)) (rftarget c :: snapshot_refs c).

(** ** RFSource functions *)

(** [<] on hit distances. *)
Variable dist_ltb : Dist -> Dist -> bool.

(** Truth value of a [Point] object (common/maths.py, not among the
    sources), as [not bp] consults it. *)
Variable Point_truth : Point -> bool.

(** [self.Point2D_to_Ray], [self.Point_to_Point2D] and [self.Point_to_Ray]
    (rfcontext_spaces.py, not among the sources); the last two answer [None]
    for a point the view does not map. *)
Variable Point2D_to_Ray : Point2D -> Ray.
Variable Point_to_Point2D : Point -> option Point2D.
Variable Point_to_Ray : Point -> float -> option Ray.

(** What [is_visible] reads off the geometric values (common/maths.py, not
    among the sources): the screen coordinates of a [Point2D], the truth
    values of a [Point2D], a [Ray] and a [Normal], and
    [normal.dot(ray.d)]. *)
Variable Point2D_x Point2D_y : Point2D -> float.
Variable Point2D_truth : Point2D -> bool.
Variable Ray_truth : Ray -> bool.
Variable Normal_truth : Normal -> bool.
Variable normal_dot_ray_d : Normal -> Ray -> float.

(** [hd < bd] on two tuple components; ordering [None] raises [TypeError]. *)
Definition py_lt (hd bd : option Dist) : bool + Exn :=
  match hd, bd with
  | Some x, Some y => inl (dist_ltb x y)
  | _, _ => inr TypeError
  end.

(** The loop test [bp is None or (hp is not None and hd < bd)], with the
    short-circuit evaluation of [or] and [and]. *)
Definition closer (h best : Hit4) : bool + Exn :=
  let '(hp, _, _, hd) := h in
  let '(bp, _, _, bd) := best in
  match bp with
  | None => inl true
  | Some _ =>
      match hp with
      | None => inl false
      | Some _ => py_lt hd bd
      end
  end.

(** The [for] loop of [raycast_sources_Ray], from the running best. *)
Fixpoint raycast_sources_loop (ray : Ray) (srcs : list RFSource) (best : Hit4)
    : Hit4 + Exn :=
  match srcs with
  | [] => inl best
  | rfsource :: rest =>
      let h := raycast rfsource ray in
      match closer h best with
      | inl true => raycast_sources_loop ray rest h
      | inl false => raycast_sources_loop ray rest best
      | inr e => inr e
      end
  end.

Definition raycast_sources_Ray (srcs : list RFSource) (ray : Ray) : Hit4 + Exn :=
  raycast_sources_loop ray srcs no_hit.

Definition raycast_sources_Ray_all (srcs : list RFSource) (ray : Ray) : list Hit4 :=
  flat_map (fun rfsource => raycast_all rfsource ray) srcs.

Definition raycast_sources_Point2D (srcs : list RFSource) (xy : option Point2D)
    : Hit4 + Exn :=
  match xy with
  | None => inl (None, None, None, None)
  | Some xy => raycast_sources_Ray srcs (Point2D_to_Ray xy)
  end.

(** What [raycast_sources_Point2D_all] returns: a 4-tuple or a list. *)
Inductive TupleOrList : Type :=
| py_tuple (h : Hit4)
| py_list (hits : list Hit4).

Definition raycast_sources_Point2D_all (srcs : list RFSource) (xy : option Point2D)
    : TupleOrList :=
  match xy with
  | None => py_tuple (None, None, None, None)
  | Some xy => py_list (raycast_sources_Ray_all srcs (Point2D_to_Ray xy))
  end.

Definition raycast_sources_Point (srcs : list RFSource) (xyz : option Point)
    : Hit4 + Exn :=
  match xyz with
  | None => inl (None, None, None, None)
  | Some xyz => raycast_sources_Point2D srcs (Point_to_Point2D xyz)
  end.

(** The [for] loop of [nearest_sources_Point], from the running best. *)
Fixpoint nearest_sources_loop (point : Point) (max_dist : Dist)
    (srcs : list RFSource) (best : Hit4) : Hit4 + Exn :=
  match srcs with
  | [] => inl best
  | rfsource :: rest =>
      let h := nearest rfsource point max_dist in
      match closer h best with
      | inl true => nearest_sources_loop point max_dist rest h
      | inl false => nearest_sources_loop point max_dist rest best
      | inr e => inr e
      end
  end.

Definition nearest_sources_Point (srcs : list RFSource) (point : Point)
    (max_dist : Dist) : Hit4 + Exn :=
  nearest_sources_loop point max_dist srcs no_hit.

(** The [for] loop of [plane_intersection_crawl]: the running best and the
    source [bo] it came from. *)
Fixpoint crawl_loop (ray : Ray) (srcs : list RFSource) (best : Hit4)
    (bo : option RFSource) : (Hit4 * option RFSource) + Exn :=
  match srcs with
  | [] => inl (best, bo)
  | rfsource :: rest =>
      let h := raycast rfsource ray in
      match closer h best with
      | inl true => crawl_loop ray rest h (Some rfsource)
      | inl false => crawl_loop ray rest best bo
      | inr e => inr e
      end
  end.

(** [not bp] for [bp] a [Point] or [None]. *)
Definition not_bp (bp : option Point) : bool :=
  match bp with
  | None => true
  | Some p => negb (Point_truth p)
  end.

Definition plane_intersection_crawl (srcs : list RFSource) (ray : Ray)
    (plane : Plane) (walk : bool) : list Crawl + Exn :=
  match crawl_loop ray srcs no_hit None with
  | inr e => inr e
  | inl ((bp, _, _, _), bo) =>
      if not_bp bp then inl []
      else
        match bo with
        | None => inr AttributeError
        | Some bo =>
            if walk then inl (plane_intersection_walk_crawl_of bo ray plane)
            else inl (plane_intersection_crawl_of bo ray plane)
        end
  end.

Definition plane_intersections_crawl (srcs : list RFSource) (plane : Plane)
    : list Crawl :=
  flat_map (fun rfsource => plane_intersections_crawl_of rfsource plane) srcs.

(** [is_visible]; [size] is [self.actions.size]. *)
Definition is_visible (srcs : list RFSource) (size : float * float)
    (point : Point) (normal : option Normal) : bool :=
  match Point_to_Point2D point with
  | None => false
  | Some p2D =>
      if negb (Point2D_truth p2D) then false
      else if (Point2D_x p2D <? 0)%float || (fst size <? Point2D_x p2D)%float then false
      else if (Point2D_y p2D <? 0)%float || (snd size <? Point2D_y p2D)%float then false
      else
        match Point_to_Ray point (-0.001)%float with
        | None => false
        | Some ray =>
            if negb (Ray_truth ray) then false
            else if match normal with
                    | None => false
                    | Some n => Normal_truth n && (0 <=? normal_dot_ray_d n ray)%float
                    end
            then false
            else negb (existsb (fun rfsource => raycast_hit rfsource ray) srcs)
        end
  end.

(** ** The modal step *)

(** [self.actions] once [_process_event] has resolved the raw event
    (rfcontext_actions.py is not among the sources). *)
Record Actions : Type := mkActions {
  using_ : string -> bool;
  pressed : string -> bool;
  navigating : bool;
  timer : bool;
  trackpad : bool;
  time_delta : float;
  mouse : option Point2D;
  valid_mouse : bool
}.

(** What the collaborators answer during one call of [modal]. *)
Record Event : Type := mkEvent {
  actions : Actions;
  event_type : string;
  use_auto_save_temporary_files : bool;
  auto_save_time : float;
  window_manager_hover : bool;
  rfwidget_modal : bool;
  rfwidget_mouse_cursor : string
}.

(** [RFTool.action_tool]: the (action, tool class) bindings. *)
Variable action_tool : list (string * string).

(** [self.select_toggle] (rfcontext_target.py) and the active tool's
    [modal], which run arbitrary code on the context. *)
Variable select_toggle : M unit.
Variable tool_modal : RFTool -> M unit.

Definition raycast_sources_mouse (srcs : list RFSource) (a : Actions) : Hit4 + Exn :=
  raycast_sources_Point2D srcs (mouse a).

(** [tool()]: a new instance of a tool class. *)
Definition new_tool (cls : string) : M RFTool :=
  let! c := get in
  do! modify (set_next_tool_id (S (next_tool_id c))) in
  ret {| tool_class := cls; tool_id := next_tool_id c |}.

(** The first binding of [RFTool.action_tool] whose action is pressed. *)
Fixpoint tool_shortcut (a : Actions) (bindings : list (string * string))
    : option string :=
  match bindings with
  | [] => None
  | (action, cls) :: rest =>
      if pressed a action then Some cls else tool_shortcut a rest
  end.

Definition modal_main (ev : Event) : M (option string) :=
  let a := actions ev in
  if pressed a "undo" then
    do! undo_pop in ret None
  else if pressed a "redo" then
    do! redo_pop in ret None
  else if pressed a "F2" then
    do! call profiler_printout in ret None
  else if pressed a "F3" then
    do! call (print "Clearing profiler") in
    do! call profiler_clear in ret None
  else
    match tool_shortcut a action_tool with
    | Some cls =>
        let! t := new_tool cls in
        do! set_tool t false in ret None
    | None =>
        if pressed a "select all" then
          do! undo_push "select all" false in
          do! select_toggle in ret None
        else
          do! (if valid_mouse a then
                 do! call rfwidget_update in
                 call (set_cursor (rfwidget_mouse_cursor ev))
               else
                 do! call rfwidget_clear in
                 call (set_cursor "DEFAULT")) in
          if rfwidget_modal ev && valid_mouse a then
            let! c := get in
            do! tool_modal (tool c) in ret None
          else ret None
    end.

(** [self.FSM], the dict [{'main': self.modal_main}]. *)
Definition FSM (m : string) : option (Event -> M (option string)) :=
  if String.eqb m "main" then Some modal_main else None.

(** The auto-save timer of [modal]. *)
Definition auto_save (ev : Event) : M unit :=
  let auto_save_time := (auto_save_time ev * 60)%float in
  if use_auto_save_temporary_files ev && String.eqb (event_type ev) "TIMER" then
    do! modify (fun c =>
          match time_to_save c with
          | None => set_time_to_save (Some auto_save_time) c
          | Some t => set_time_to_save (Some (t - time_delta (actions ev))%float) c
          end) in
    let! c := get in
    match time_to_save c with
    | Some t =>
        if (t <=? 0)%float then
          do! call save_as_mainfile in
          modify (set_time_to_save (Some auto_save_time))
        else ret tt
    | None => ret tt
    end
  else ret tt.

(** [if nmode: self.mode = nmode] *)
Definition update_mode (nmode : option string) : M unit :=
  match nmode with
  | Some m => if String.eqb m "" then ret tt else modify (set_mode m)
  | None => ret tt
  end.

(** The [try] block of [modal] with its two [except] clauses. *)
Definition dispatch_mode (ev : Event) : M unit :=
  fun c =>
    let body : M unit :=
      match FSM (mode c) with
      | None => raise KeyError
      | Some handler =>
          do! call (FSM_call (mode c)) in
          let! nmode := handler ev in
          update_mode nmode
      end in
    match body c with
    | (inl _, c') => (inl tt, c')
    | (inr AssertionError, c') =>
        (do! call print_exception_info in call (alert_user "assert")) c'
    | (inr _, c') =>
        (do! call print_exception_info in call (alert_user "exception")) c'
    end.

(** [modal]: the returned set is written as the list of its members. *)
Definition modal (ev : Event) : M (list string) :=
  let a := actions ev in
  let! c := get in
  let! hit := lift (raycast_sources_mouse (rfsources c) a) in
  let '(hit_pos, hit_norm, _, _) := hit in
  do! modify (set_actions_hit hit_pos hit_norm) in
  if using_ a "window actions" then ret ["pass"]
  else if using_ a "autosave" then ret ["pass"]
  else if pressed a "tool help" then
    do! call toggle_tool_help in ret []
  else
    do! auto_save ev in
    do! call window_manager_modal in
    if window_manager_hover ev then
      do! call rfwidget_clear in
      let! c := get in
      if exit_flag c then ret ["confirm"] else ret []
    else
      let! c := get in
      if navigating a || (timer a && nav c) then
        do! call (actions_unuse "navigate") in
        do! modify (set_nav true) in
        do! (if negb (trackpad a) then call (set_cursor "HAND") else ret tt) in
        do! call rfwidget_clear in
        ret ["pass"]
      else
        do! (if nav c then
               do! modify (set_nav false) in call rfwidget_update
             else ret tt) in
        do! dispatch_mode ev in
        let! c := get in
        if pressed a "done" || exit_flag c then ret ["confirm"]
        else if pressed a "edit mode" then ret ["confirm"; "edit mode"]
        else ret [].

(** The last two statements of [__init__]: [self.undo_push('initial')]
    followed by [self.undo_cancel()]. *)
Definition touch_undo_stack : M PyValue :=
  do! undo_push "initial" false in
  undo_cancel.

(** ** Predicates of the statements *)

(** The first entries of the undo stack hold the topologies [ms], newest
    first, in objects that are distinct from each other and from the live
    target. *)
Definition captured (c : RFContext) (ms : list Mesh) : Prop :=
  exists ss rest,
    undo c = ss ++ rest /\
    Forall2 (fun s m => snapshot_topology c s = Some m) ss ms /\
    NoDup (rftarget c :: (st_rftarget <$> ss)) /\
    is_Some (heap c !! rftarget c).

(** The counting invariant behind the bound on the undo stack. *)
Definition within_depth (c : RFContext) : Prop :=
  length (undo c) + length (redo c) <= undo_depth c.

(** What a modal step that only passes through must leave alone: the
    history, the target, the tool, the mode and the exit flag. *)
Definition session_core (c : RFContext) :=
  (undo c, redo c, undo_depth c, tool c, rftarget c, heap c, mode c,
   exit_flag c, next_tool_id c).

(** The calls that dispatch to a mode handler or start a tool. *)
Definition is_dispatch (e : Call) : bool :=
  match e with
  | FSM_call _ | tool_start _ => true
  | _ => false
  end.

(** [c'] is [c] after calls that neither dispatch nor touch the core. *)
Definition quiet (c c' : RFContext) : Prop :=
  session_core c' = session_core c /\
  exists calls, trace c' = trace c ++ calls /\
                Forall (fun e => is_dispatch e = false) calls.

(** A per-source result that is a hit at distance [d]. *)
Definition is_hit (h : Hit4) (d : Dist) : Prop :=
  exists p n i, h = (Some p, Some n, Some i, Some d).

(** A per-source result is the no-hit tuple or a hit carrying a distance. *)
Definition well_formed_hit (h : Hit4) : Prop :=
  h = no_hit \/ exists d, is_hit h d.

(** [<] on distances is a strict weak order, as on the real numbers. *)
Class StrictWeakOrder (ltb : Dist -> Dist -> bool) : Prop := {
  ltb_irrefl : forall x, ltb x x = false;
  ltb_trans : forall x y z, ltb x y = true -> ltb y z = true -> ltb x z = true;
  ltb_cotrans : forall x y z, ltb x y = true -> ltb x z = true \/ ltb z y = true
}.

(** The shape the three reduction loops share: the running best over the
    per-source answers [query rfsource], and the source it came from. *)
Fixpoint best_of (query : RFSource -> Hit4) (srcs : list RFSource)
    (best : Hit4) (bo : option RFSource) : (Hit4 * option RFSource) + Exn :=
  match srcs with
  | [] => inl (best, bo)
  | rfsource :: rest =>
      match closer (query rfsource) best with
      | inl true => best_of query rest (query rfsource) (Some rfsource)
      | inl false => best_of query rest best bo
      | inr e => inr e
      end
  end.

(** Among the per-source results [rs], entry [j] at distance [d] is the
    nearest hit and the earliest of the nearest ones: every earlier hit is
    strictly farther and no later hit is strictly nearer. *)
Definition nearest_first (rs : list Hit4) (j : nat) (d : Dist) : Prop :=
  forall i h di, rs !! i = Some h -> is_hit h di ->
    (i < j -> dist_ltb d di = true) /\ (j <= i -> dist_ltb di d = false).

(** What the reduction loop has kept after the per-source results [rs] of
    the sources [srcs]: the no-hit tuple when all of them miss (the owner
    is then whichever source was asked last), else the nearest hit, the
    earliest of equals, and the source it came from. *)
Definition reduced (srcs : list RFSource) (rs : list Hit4) (r : Hit4)
    (bo : option RFSource) : Prop :=
  (r = no_hit /\ Forall (fun h => h = no_hit) rs) \/
  (exists j d, rs !! j = Some r /\ bo = srcs !! j /\ is_Some bo /\
               is_hit r d /\ nearest_first rs j d).

(** The per-source results along the pointer's ray are well formed: what
    the pointer raycast of [modal] needs in order to return. *)
Definition mouse_sources_well_formed (c : RFContext) (ev : Event) : Prop :=
  forall xy, mouse (actions ev) = Some xy ->
    Forall (fun s => well_formed_hit (raycast s (Point2D_to_Ray xy))) (rfsources c).

End Model.

(** ** Source and target discovery (the static methods of [RFContext]) *)

(** [type(o)] for the values the static methods inspect. *)
Inductive BType : Type :=
| bpy_types_Object
| bpy_types_Mesh
| other_type.

Definition BType_is (a b : BType) : bool :=
  match a, b with
  | bpy_types_Object, bpy_types_Object => true
  | bpy_types_Mesh, bpy_types_Mesh => true
  | other_type, other_type => true
  | _, _ => false
  end.

(** What the static methods read off a Blender object: its identity (the
    unique name), [type(o)], [type(o.data)], [o.layers], [o.hide],
    [o.select] and the number of [o.data.polygons]. *)
Record BObject : Type := mkObject {
  ob_name : string;
  ob_type : BType;
  ob_data_type : BType;
  ob_layers : list bool;
  ob_hide : bool;
  ob_select : bool;
  ob_data_polygons : nat
}.

(** [bpy.context]: the scene's layers and objects and the active object. *)
Record BContext : Type := mkBContext {
  scene_layers : list bool;
  scene_objects : list BObject;
  active_object : option BObject
}.

(** [any(vl and ol for vl,ol in zip(bpy.context.scene.layers, o.layers))] *)
Fixpoint on_visible_layer (scene_layers object_layers : list bool) : bool :=
  match scene_layers, object_layers with
  | vl :: vls, ol :: ols => (vl && ol) || on_visible_layer vls ols
  | _, _ => false
  end.

(** [o == bpy.context.active_object]: Blender objects are equal when they
    are the same object. *)
Definition is_active_object (ctx : BContext) (o : BObject) : bool :=
  match active_object ctx with
  | Some a => String.eqb (ob_name o) (ob_name a)
  | None => false
  end.

(** [is_valid_source]; the argument is [None] or an object. *)
Definition is_valid_source (ctx : BContext) (o : option BObject) : bool :=
  match o with
  | None => false
  | Some o =>
      if negb (BType_is (ob_type o) bpy_types_Object) then false
      else if negb (BType_is (ob_data_type o) bpy_types_Mesh) then false
      else if negb (on_visible_layer (scene_layers ctx) (ob_layers o)) then false
      else if ob_hide o then false
      else if ob_select o && is_active_object ctx o then false
      else if Nat.eqb (ob_data_polygons o) 0 then false
      else true
  end.

Definition is_valid_target (ctx : BContext) (o : option BObject) : bool :=
  match o with
  | None => false
  | Some o =>
      if negb (BType_is (ob_type o) bpy_types_Object) then false
      else if negb (BType_is (ob_data_type o) bpy_types_Mesh) then false
      else if negb (on_visible_layer (scene_layers ctx) (ob_layers o)) then false
      else if ob_hide o then false
      else if negb (ob_select o) then false
      else if negb (is_active_object ctx o) then false
      else true
  end.

Definition get_sources (ctx : BContext) : list BObject :=
  List.filter (fun o => is_valid_source ctx (Some o)) (scene_objects ctx).

Definition get_target (ctx : BContext) : option BObject :=
  let o := active_object ctx in
  if is_valid_target ctx o then o else None.

Definition has_valid_source (ctx : BContext) : bool :=
  existsb (fun o => is_valid_source ctx (Some o)) (scene_objects ctx).

Definition has_valid_target (ctx : BContext) : bool :=
  match get_target ctx with
  | None => false
  | Some _ => true
  end.

(** ** A small session, for the examples *)

Definition Vec3 : Type := (Z * Z * Z)%type.
Definition ExMesh : Type := list Vec3.
Definition ExRay : Type := (Vec3 * Vec3)%type.
Definition ExPlane : Type := (Vec3 * Vec3)%type.
Definition ExPoint2D : Type := (Z * Z)%type.
Definition ExCrawl : Type := (Vec3 * Vec3)%type.

(** A source that answers every ray with [h] and every plane with [segs]. *)
Definition const_source {Dist : Type} (h : @Hit4 Vec3 Vec3 Dist)
    (segs : list ExCrawl) : @RFSource Vec3 Vec3 Dist ExRay ExPlane ExCrawl :=
  {| raycast := fun _ => h;
     raycast_all := fun _ => match h with (Some _, _, _, _) => [h] | _ => [] end;
     raycast_hit := fun _ => match h with (Some _, _, _, _) => true | _ => false end;
     nearest := fun _ _ => h;
     plane_intersection_crawl_of := fun _ _ => segs;
     plane_intersection_walk_crawl_of := fun _ _ => firstn 1 segs;
     plane_intersections_crawl_of := fun _ => segs |}.

Definition ex_hit {Dist : Type} (d : Dist) : @Hit4 Vec3 Vec3 Dist :=
  (Some (0, 0, 1)%Z, Some (0, 0, 1)%Z, Some 7%Z, Some d).

Definition ex_ray : ExRay := ((0, 0, 10)%Z, (0, 0, -1)%Z).
Definition ex_plane : ExPlane := ((0, 0, 0)%Z, (1, 0, 0)%Z).
Definition ex_seg_a : ExCrawl := ((0, 0, 0)%Z, (0, 1, 0)%Z).
Definition ex_seg_b : ExCrawl := ((0, 1, 0)%Z, (0, 2, 0)%Z).

(** Three sources reporting no hit, a hit at 5 and a hit at 2. *)
Definition ex_sources_Z : list (@RFSource Vec3 Vec3 Z ExRay ExPlane ExCrawl) :=
  [const_source no_hit []; const_source (ex_hit 5%Z) [ex_seg_a];
   const_source (ex_hit 2%Z) [ex_seg_a; ex_seg_b]].

Definition ex_sources_float : list (@RFSource Vec3 Vec3 float ExRay ExPlane ExCrawl) :=
  [const_source no_hit []; const_source (ex_hit 5%float) [ex_seg_a];
   const_source (ex_hit 2%float) [ex_seg_a; ex_seg_b]].

Definition ex_tool : RFTool := {| tool_class := "Contours"; tool_id := 0 |}.

(** A context right after construction: empty stacks, one live target. *)
Definition ex_context (depth : nat)
    : @RFContext ExMesh Vec3 Vec3 Z ExRay ExPlane ExCrawl :=
  {| undo := []; redo := []; undo_depth := depth; tool := ex_tool;
     rftarget := 0; heap := [{| topology := [(0, 0, 0)%Z]; is_dirty := false |}];
     mode := "main"; nav := false; time_to_save := None; exit_flag := false;
     rfsources := ex_sources_Z; actions_hit_pos := None;
     actions_hit_norm := None; next_tool_id := 1;
     options_instrument := false; trace := [] |}.

(** Edits of the example mesh: add a vertex. *)
Definition add_vertex (v : Vec3) (m : ExMesh) : ExMesh := v :: m.

(** The resolved actions of an event on which exactly the named actions
    fire, with navigation as given. *)
Definition ex_actions (fired : list string) (navigating : bool)
    : @Actions ExPoint2D :=
  {| using_ := fun _ => false;
     pressed := fun a => existsb (String.eqb a) fired;
     navigating := navigating; timer := false; trackpad := false;
     time_delta := 0%float; mouse := Some (3, 4)%Z; valid_mouse := true |}.

Definition ex_event (fired : list string) (navigating : bool)
    : @Event ExPoint2D :=
  {| actions := ex_actions fired navigating; event_type := "MOUSEMOVE";
     use_auto_save_temporary_files := false; auto_save_time := 2%float;
     window_manager_hover := false; rfwidget_modal := false;
     rfwidget_mouse_cursor := "CROSSHAIR" |}.

Definition ex_Point2D_to_Ray (xy : ExPoint2D) : ExRay :=
  ((fst xy, snd xy, 10)%Z, (0, 0, -1)%Z).

Definition ex_action_tool : list (string * string) :=
  [("contours tool", "Contours"); ("polystrips tool", "PolyStrips")].

(** The modal step of the example session: select-all and the tools' own
    modal do nothing. *)
Definition ex_modal (ev : @Event ExPoint2D)
    : StExn (@RFContext ExMesh Vec3 Vec3 Z ExRay ExPlane ExCrawl) (list string) :=
  modal Z.ltb ex_Point2D_to_Ray ex_action_tool (ret tt) (fun _ => ret tt) ev.

(** A scene with a selected active target and two other objects. *)
Definition ex_target_object : BObject :=
  {| ob_name := "Retopo"; ob_type := bpy_types_Object;
     ob_data_type := bpy_types_Mesh; ob_layers := [true; false];
     ob_hide := false; ob_select := true; ob_data_polygons := 0 |}.

Definition ex_source_object : BObject :=
  {| ob_name := "Sculpt"; ob_type := bpy_types_Object;
     ob_data_type := bpy_types_Mesh; ob_layers := [true; false];
     ob_hide := false; ob_select := false; ob_data_polygons := 12 |}.

Definition ex_bcontext : BContext :=
  {| scene_layers := [true; false];
     scene_objects := [ex_target_object; ex_source_object];
     active_object := Some ex_target_object |}.

(** ** Frame conditions *)

(** The method [m] leaves the component [proj] of the state as it was,
    whether it returns or raises. *)
Definition keeps {S A B : Type} (proj : S -> B) (m : StExn S A) : Prop :=
  forall c, proj (exec m c) = proj c.

(** ** Further examples *)

(** A source that reports a point but no distance. *)
Definition ex_source_no_distance : @RFSource Vec3 Vec3 Z ExRay ExPlane ExCrawl :=
  const_source (Some (0, 0, 1)%Z, Some (0, 0, 1)%Z, Some 7%Z, None) [].

(** A view that shows every point at the screen point (3, 4), along the
    example ray. *)
Definition ex_Point_to_Point2D (p : Vec3) : option (float * float) :=
  Some (3, 4)%float.

Definition ex_Point_to_Ray (p : Vec3) (max_dist_offset : float) : option ExRay :=
  Some ex_ray.

(** [is_visible] in the example view, for a window of 800 by 600; every
    geometric value is truthy and every normal faces the viewer. *)
Definition ex_is_visible (srcs : list (@RFSource Vec3 Vec3 Z ExRay ExPlane ExCrawl))
    (point : Vec3) (normal : option Vec3) : bool :=
  is_visible ex_Point_to_Point2D ex_Point_to_Ray fst snd (fun _ => true)
    (fun _ => true) (fun _ => true) (fun _ _ => (-1)%float) srcs
    (800, 600)%float point normal.

(** The example session after a push, an edit and an undo: one snapshot on
    the redo stack. *)
Definition ex_context_undone : @RFContext ExMesh Vec3 Vec3 Z ExRay ExPlane ExCrawl :=
  exec undo_pop
    (exec (mutate (add_vertex (1, 0, 0)%Z))
       (exec (undo_push "move" false) (ex_context 3))).

(** A scene object on layers the scene does not show. *)
Definition ex_hidden_layer_object : BObject :=
  {| ob_name := "Reference"; ob_type := bpy_types_Object;
     ob_data_type := bpy_types_Mesh; ob_layers := [false; true; true];
     ob_hide := false; ob_select := false; ob_data_polygons := 4 |}.

(** * Properties of the undo / redo history *)

(** Unfolds a method of the history down to the monad's operations. *)
Ltac run_method :=
  unfold exec, result, undo_push, undo_pop, undo_cancel, redo_pop, mutate,
    _restore_state, _create_state, deepcopy_rftarget, set_tool,
    instrument_write, on_rftarget, call, bind, get, modify, ret.

Section HistoryProperties.
Context {Mesh Point Normal Dist Ray Plane Crawl : Type}.
Local Abbreviation Ctx := (@RFContext Mesh Point Normal Dist Ray Plane Crawl).
Implicit Types (c : Ctx) (s : State) (t : @RFTarget Mesh).

Lemma limit_stack_size_take (u : list State) : forall fuel depth,
  length u <= fuel -> limit_stack_size fuel depth u = take depth u.
Proof.
  intros fuel; revert u; induction fuel as [|fuel IH]; intros u depth Hlen; simpl.
  - destruct u; simpl in *; [now rewrite take_nil | lia].
  - destruct (Nat.ltb_spec depth (length u)) as [Hlt|Hge].
    + rewrite IH.
      * now apply firstn_removelast.
      * rewrite removelast_firstn_len, length_take. lia.
    + symmetry. apply take_ge. lia.
Qed.

Local Arguments limit_stack_size : simpl never.

Lemma undo_push_eq c action repeatable t :
  repeating action repeatable c = false ->
  heap c !! rftarget c = Some t ->
  undo_push action repeatable c =
    (inl PyNone,
     set_trace (trace c ++ (if options_instrument c then [instrument_text_write action] else []))
       (set_redo []
         (set_undo (take (undo_depth c) (mkState action (tool c) (length (heap c)) :: undo c))
           (set_heap (heap c ++ [t]) c)))).
Proof.
  intros Hrep Hlive. unfold undo_push, bind, get. rewrite Hrep.
  unfold _create_state, bind, get, deepcopy_rftarget. rewrite Hlive. cbn.
  rewrite limit_stack_size_take by (cbn; lia).
  unfold instrument_write, bind, get. cbn.
  destruct (options_instrument c); cbn.
  - reflexivity.
  - unfold set_trace; cbn. rewrite app_nil_r. reflexivity.
Qed.

Lemma alter_rewrap (h : list (@RFTarget Mesh)) a : alter rewrap a h = h.
Proof. now apply list_alter_id. Qed.

Lemma undo_push_skip c action repeatable :
  repeating action repeatable c = true ->
  undo_push action repeatable c = (inl PyNone, c).
Proof. intros H. unfold undo_push, bind, get. now rewrite H. Qed.

Lemma undo_push_fields c action repeatable t :
  repeating action repeatable c = false ->
  heap c !! rftarget c = Some t ->
  let c' := exec (undo_push action repeatable) c in
  undo c' = take (undo_depth c) (mkState action (tool c) (length (heap c)) :: undo c) /\
  redo c' = [] /\ tool c' = tool c /\ rftarget c' = rftarget c /\
  heap c' = heap c ++ [t] /\ undo_depth c' = undo_depth c.
Proof.
  intros Hrep Hlive. unfold exec. rewrite (undo_push_eq c action repeatable t Hrep Hlive).
  cbn. repeat split.
Qed.

Lemma undo_pop_fields c top rest t :
  undo c = top :: rest ->
  heap c !! rftarget c = Some t ->
  let c' := exec undo_pop c in
  undo c' = rest /\
  redo c' = mkState "undo" (tool c) (length (heap c)) :: redo c /\
  tool c' = st_tool top /\ rftarget c' = st_rftarget top /\
  heap c' = alter dirty (st_rftarget top) (heap c ++ [t]) /\
  undo_depth c' = undo_depth c.
Proof.
  intros Hu Hlive. run_method. rewrite Hu, Hlive. cbn.
  rewrite alter_rewrap. destruct (options_instrument c); cbn; repeat split.
Qed.

Lemma redo_pop_fields c top rest t :
  redo c = top :: rest ->
  heap c !! rftarget c = Some t ->
  let c' := exec redo_pop c in
  undo c' = mkState "redo" (tool c) (length (heap c)) :: undo c /\
  redo c' = rest /\
  tool c' = st_tool top /\ rftarget c' = st_rftarget top /\
  heap c' = alter dirty (st_rftarget top) (heap c ++ [t]) /\
  undo_depth c' = undo_depth c.
Proof.
  intros Hu Hlive. run_method. rewrite Hu, Hlive. cbn.
  rewrite alter_rewrap. destruct (options_instrument c); cbn; repeat split.
Qed.

Lemma undo_cancel_fields c top rest :
  undo c = top :: rest ->
  let c' := exec undo_cancel c in
  undo c' = rest /\ redo c' = redo c /\
  tool c' = st_tool top /\ rftarget c' = st_rftarget top /\
  heap c' = alter dirty (st_rftarget top) (heap c) /\
  undo_depth c' = undo_depth c.
Proof.
  intros Hu. run_method. rewrite Hu. cbn.
  rewrite alter_rewrap. destruct (options_instrument c); cbn; repeat split.
Qed.

Lemma mutate_fields c f :
  let c' := exec (mutate f) c in
  undo c' = undo c /\ redo c' = redo c /\ tool c' = tool c /\
  rftarget c' = rftarget c /\
  heap c' = alter (fun t => mkTarget (f (topology t)) (is_dirty t)) (rftarget c) (heap c) /\
  undo_depth c' = undo_depth c.
Proof. run_method. cbn. repeat split. Qed.


Lemma live_topology_mutate c f :
  live_topology (exec (mutate f) c) = f <$> live_topology c.
Proof.
  unfold live_topology. destruct (mutate_fields c f) as (_ & _ & _ & -> & -> & _).
  rewrite list_lookup_alter_eq. now destruct (heap c !! rftarget c).
Qed.

Lemma snapshots_frame c c' (ss : list State) ms :
  (forall s, s ∈ ss -> heap c' !! st_rftarget s = heap c !! st_rftarget s) ->
  Forall2 (fun s m => snapshot_topology c s = Some m) ss ms ->
  Forall2 (fun s m => snapshot_topology c' s = Some m) ss ms.
Proof.
  intros Hsame H. induction H as [|s m ss ms Hs _ IH]; constructor.
  - unfold snapshot_topology in *. rewrite Hsame; [exact Hs | apply elem_of_cons; now left].
  - apply IH. intros s' Hin. apply Hsame. apply elem_of_cons; now right.
Qed.

Lemma snapshot_valid c s m :
  snapshot_topology c s = Some m -> st_rftarget s < length (heap c).
Proof.
  unfold snapshot_topology. intros H.
  destruct (heap c !! st_rftarget s) eqn:E; [|discriminate].
  eapply lookup_lt_Some; eauto.
Qed.

Lemma captured_mutate c ms f : captured c ms -> captured (exec (mutate f) c) ms.
Proof.
  intros (ss & rest & Hu & Hss & Hnd & Hlive).
  destruct (mutate_fields c f) as (Eu & _ & _ & Ea & Eh & _).
  exists ss, rest. rewrite Eu, Ea. repeat split; trivial.
  - eapply snapshots_frame; [|exact Hss]. intros s Hin. rewrite Eh.
    apply list_lookup_alter_ne. intros E. apply NoDup_cons_1_1 in Hnd.
    apply Hnd. rewrite E. now apply list_elem_of_fmap_2.
  - rewrite Eh, list_lookup_alter_eq. destruct Hlive as [t ->]. cbn. eauto.
Qed.

Lemma captured_push c ms m action :
  captured c ms -> length ms < undo_depth c -> live_topology c = Some m ->
  captured (exec (undo_push action false) c) (m :: ms).
Proof.
  intros (ss & rest & Hu & Hss & Hnd & Hlive) Hdepth Hm.
  destruct Hlive as [t Ht].
  destruct (undo_push_fields c action false t eq_refl Ht) as (Eu & _ & _ & Ea & Eh & _).
  assert (Hlen : length ss = length ms) by (eapply Forall2_length; eauto).
  exists (mkState action (tool c) (length (heap c)) :: ss),
         (take (undo_depth c - S (length ss)) rest).
  rewrite Eu, Ea, Eh, Hu. repeat split.
  - change (?x :: ss ++ rest) with ((x :: ss) ++ rest).
    rewrite take_app. f_equal. apply take_ge. cbn. lia.
  - constructor.
    + unfold snapshot_topology. rewrite Eh. cbn.
      rewrite list_lookup_middle by reflexivity. cbn.
      unfold live_topology in Hm. rewrite Ht in Hm. exact Hm.
    + eapply snapshots_frame; [|exact Hss]. intros s Hin. rewrite Eh.
      apply lookup_app_l.
      apply list_elem_of_lookup in Hin as [i Hi].
      destruct (Forall2_lookup_l _ _ _ _ _ Hss Hi) as (m' & _ & Hm').
      eapply snapshot_valid; eauto.
  - cbn. apply lookup_lt_Some in Ht.
    assert (Hfresh : forall a, a ∈ rftarget c :: (st_rftarget <$> ss) -> a <> length (heap c)).
    { intros a [->|Hin]%elem_of_cons; [lia|].
      apply list_elem_of_fmap in Hin as (s & -> & Hs).
      apply list_elem_of_lookup in Hs as [i Hi].
      destruct (Forall2_lookup_l _ _ _ _ _ Hss Hi) as (m' & _ & Hm').
      apply snapshot_valid in Hm'. lia. }
    apply NoDup_cons in Hnd as [Hnotin Hnd].
    apply NoDup_cons; split.
    + intros [E|Hin]%elem_of_cons; [lia|]. contradiction.
    + apply NoDup_cons; split; [|exact Hnd].
      intros Hin. eapply (Hfresh (length (heap c))); [apply elem_of_cons; right; exact Hin | reflexivity].
  - rewrite lookup_app_l by (eapply lookup_lt_Some; eauto). rewrite Ht. eauto.
Qed.

Lemma captured_pop c m ms :
  captured c (m :: ms) ->
  captured (exec undo_pop c) ms /\ live_topology (exec undo_pop c) = Some m.
Proof.
  intros (ss & rest & Hu & Hss & Hnd & [t Ht]).
  destruct ss as [|top ss]; [inversion Hss|].
  apply Forall2_cons in Hss as [Htop Hss].
  destruct (undo_pop_fields c top (ss ++ rest) t Hu Ht) as (Eu & _ & _ & Ea & Eh & _).
  cbn in Hnd. apply NoDup_cons in Hnd as [Hlive Hnd].
  apply NoDup_cons in Hnd as [Htopnotin Hnd].
  pose proof (snapshot_valid _ _ _ Htop) as Hvalid.
  unfold snapshot_topology in Htop.
  destruct (heap c !! st_rftarget top) as [v|] eqn:Ev; [|discriminate].
  split.
  - exists ss, rest. rewrite Eu, Ea, Eh. repeat split; trivial.
    + eapply snapshots_frame; [|exact Hss]. intros s Hin. rewrite Eh.
      rewrite list_lookup_alter_ne.
      * apply lookup_app_l.
        apply list_elem_of_lookup in Hin as [i Hi].
        destruct (Forall2_lookup_l _ _ _ _ _ Hss Hi) as (m' & _ & Hm').
        eapply snapshot_valid; eauto.
      * intros E. apply Htopnotin. rewrite E. now apply list_elem_of_fmap_2.
    + apply NoDup_cons; split; trivial.
    + rewrite list_lookup_alter_eq, lookup_app_l, Ev by exact Hvalid. cbn. eauto.
  - unfold live_topology. rewrite Ea, Eh.
    rewrite list_lookup_alter_eq, lookup_app_l, Ev by exact Hvalid. exact Htop.
Qed.

Lemma run_ops_app (o1 o2 : list (@HistoryOp Mesh)) c :
  run_ops (o1 ++ o2) c = run_ops o2 (run_ops o1 c).
Proof. apply fold_left_app. Qed.

Lemma live_valid_mutate c f :
  is_Some (heap c !! rftarget c) ->
  is_Some (heap (exec (mutate f) c) !! rftarget (exec (mutate f) c)) /\
  undo_depth (exec (mutate f) c) = undo_depth c.
Proof.
  intros [t Ht]. destruct (mutate_fields c f) as (_ & _ & _ & -> & -> & ->).
  rewrite list_lookup_alter_eq, Ht. cbn. eauto.
Qed.

Lemma live_valid_push c action repeatable :
  is_Some (heap c !! rftarget c) ->
  is_Some (heap (exec (undo_push action repeatable) c)
             !! rftarget (exec (undo_push action repeatable) c)) /\
  undo_depth (exec (undo_push action repeatable) c) = undo_depth c.
Proof.
  intros [t Ht]. destruct (repeating action repeatable c) eqn:Hrep.
  - unfold exec. rewrite undo_push_skip by exact Hrep. cbn. rewrite Ht. eauto.
  - destruct (undo_push_fields c action repeatable t Hrep Ht)
      as (_ & _ & _ & -> & -> & ->).
    rewrite lookup_app_l by (eapply lookup_lt_Some; eauto). rewrite Ht. eauto.
Qed.

Lemma push_script_cons f a (l : list ((Mesh -> Mesh) * string)) c :
  run_ops (push_script ((f, a) :: l)) c =
  run_ops (push_script l) (exec (undo_push a false) (exec (mutate f) c)).
Proof. reflexivity. Qed.

Lemma pop_script_cons g (gs : list (Mesh -> Mesh)) c :
  run_ops (pop_script (g :: gs)) c =
  run_ops (pop_script gs) (exec undo_pop (exec (mutate g) c)).
Proof. reflexivity. Qed.

Lemma live_valid_push_script (l : list ((Mesh -> Mesh) * string)) : forall c,
  is_Some (heap c !! rftarget c) ->
  is_Some (heap (run_ops (push_script l) c) !! rftarget (run_ops (push_script l) c)) /\
  undo_depth (run_ops (push_script l) c) = undo_depth c.
Proof.
  induction l as [|[f a] l IH]; intros c Hc; [now split|].
  rewrite push_script_cons. destruct (live_valid_mutate c f Hc) as [H1 E1].
  destruct (live_valid_push _ a false H1) as [H2 E2].
  destruct (IH _ H2) as [H3 E3]. split; [exact H3|]. now rewrite E3, E2, E1.
Qed.

Lemma captured_push_script (l : list ((Mesh -> Mesh) * string)) : forall c ms,
  captured c ms -> length ms + length l <= undo_depth c ->
  exists ms', length ms' = length l /\
              captured (run_ops (push_script l) c) (ms' ++ ms).
Proof.
  induction l as [|[f a] l IH]; intros c ms Hc Hlen.
  - exists []. now split.
  - rewrite push_script_cons. cbn in Hlen.
    pose proof (captured_mutate c ms f Hc) as H1.
    assert (Hlive : is_Some (heap c !! rftarget c)) by (destruct Hc as (?&?&?&?&?&?); trivial).
    destruct (live_valid_mutate c f Hlive) as [[t Ht] E1].
    assert (Hm : live_topology (exec (mutate f) c) = Some (topology t))
      by (unfold live_topology; now rewrite Ht).
    pose proof (captured_push _ ms _ a H1 ltac:(rewrite E1; lia) Hm) as H2.
    destruct (live_valid_push (exec (mutate f) c) a false ltac:(eauto)) as [_ E2].
    destruct (IH _ _ H2 ltac:(rewrite E2, E1; simpl length; lia)) as (ms' & Hl & H3).
    exists (ms' ++ [topology t]). split.
    + rewrite length_app. cbn. lia.
    + now rewrite <- app_assoc.
Qed.

Lemma captured_pop_script (gs : list (Mesh -> Mesh)) : forall c ms m,
  captured c (ms ++ [m]) -> length gs = S (length ms) ->
  live_topology (run_ops (pop_script gs) c) = Some m.
Proof.
  induction gs as [|g gs IH]; intros c ms m Hc Hlen; [discriminate|].
  rewrite pop_script_cons. pose proof (captured_mutate c _ g Hc) as H1.
  destruct ms as [|m1 ms]; cbn [length app] in *.
  - destruct gs; [|discriminate]. apply captured_pop in H1 as [_ H1]. exact H1.
  - apply captured_pop in H1 as [H2 _]. eapply IH; [exact H2 | lia].
Qed.

Lemma snapshot_fidelity c0 (l1 l2 : list ((Mesh -> Mesh) * string)) f a (gs : list (Mesh -> Mesh)) :
  is_Some (heap c0 !! rftarget c0) ->
  length (l1 ++ (f, a) :: l2) <= undo_depth c0 ->
  length gs = S (length l2) ->
  exists m,
    live_topology (exec (mutate f) (run_ops (push_script l1) c0)) = Some m /\
    live_topology
      (run_ops (pop_script gs) (run_ops (push_script (l1 ++ (f, a) :: l2)) c0)) = Some m.
Proof.
  intros Hlive Hdepth Hgs.
  destruct (live_valid_push_script l1 c0 Hlive) as [H1 E1].
  set (c1 := run_ops (push_script l1) c0) in *.
  destruct (live_valid_mutate c1 f H1) as [[t Ht] E2].
  exists (topology t). split; [unfold live_topology; now rewrite Ht|].
  replace (push_script (l1 ++ (f, a) :: l2))
    with (push_script l1 ++ push_script ((f, a) :: l2))
    by (unfold push_script; now rewrite flat_map_app).
  rewrite run_ops_app, push_script_cons. fold c1.
  rewrite length_app in Hdepth. cbn in Hdepth.
  assert (Hcap : captured (exec (undo_push a false) (exec (mutate f) c1)) [topology t]).
  { apply captured_push.
    - exists [], (undo (exec (mutate f) c1)).
      repeat split; eauto using NoDup_singleton.
    - rewrite E2, E1. simpl length. lia.
    - unfold live_topology. now rewrite Ht. }
  destruct (live_valid_push (exec (mutate f) c1) a false ltac:(eauto)) as [_ E3].
  destruct (captured_push_script l2 _ _ Hcap ltac:(rewrite E3, E2, E1; simpl length; lia)) as (ms' & Hl & H3).
  eapply captured_pop_script; [exact H3 | lia].
Qed.

Lemma NoDup_submseteq_mono {A} (l k : list A) : l ⊆+ k -> NoDup k -> NoDup l.
Proof.
  intros H. induction H as [|x l k H IH|x y l|x l k H IH|l k1 k2 H1 IH1 H2 IH2];
    intros Hk; auto.
  - apply NoDup_cons in Hk as [Hx Hk]. apply NoDup_cons. split; [|auto].
    intros Hin. apply Hx. eapply elem_of_submseteq; eauto.
  - apply NoDup_cons in Hk as [Hx Hk]. apply NoDup_cons in Hk as [Hy Hk].
    rewrite !NoDup_cons, !elem_of_cons in *. intuition congruence.
  - apply NoDup_cons in Hk as [_ Hk]. auto.
Qed.

Lemma Forall_submseteq_mono {A} (P : A -> Prop) (l k : list A) :
  l ⊆+ k -> Forall P k -> Forall P l.
Proof.
  intros H Hk. apply Forall_forall. intros x Hx.
  rewrite Forall_forall in Hk. apply Hk. eapply elem_of_submseteq; eauto.
Qed.

(** Every reference of [c'] is one of [c] or the object allocated last. *)
Lemma wf_context_alloc c c' :
  wf_context c ->
  length (heap c') = S (length (heap c)) ->
  rftarget c' :: snapshot_refs c' ⊆+ length (heap c) :: rftarget c :: snapshot_refs c ->
  wf_context c'.
Proof.
  intros [Hnd Hv] Hlen Hsub. split.
  - eapply NoDup_submseteq_mono; [exact Hsub|]. apply NoDup_cons. split; [|exact Hnd].
    intros Hin. rewrite Forall_forall in Hv. apply Hv in Hin. lia.
  - eapply Forall_submseteq_mono; [exact Hsub|]. rewrite Hlen. constructor; [lia|].
    eapply Forall_impl; [exact Hv|]. cbn. intros; lia.
Qed.

Lemma wf_context_keep c c' :
  wf_context c ->
  length (heap c') = length (heap c) ->
  rftarget c' :: snapshot_refs c' ⊆+ rftarget c :: snapshot_refs c ->
  wf_context c'.
Proof.
  intros [Hnd Hv] Hlen Hsub. split.
  - eapply NoDup_submseteq_mono; eauto.
  - rewrite Hlen. eapply Forall_submseteq_mono; eauto.
Qed.

Lemma wf_context_live c : wf_context c -> is_Some (heap c !! rftarget c).
Proof. intros [_ Hv]. apply Forall_cons in Hv as [Hv _]. now apply lookup_lt_is_Some. Qed.

Lemma wf_context_mutate c f : wf_context c -> wf_context (exec (mutate f) c).
Proof.
  intros Hwf. destruct (mutate_fields c f) as (Eu & Er & _ & Ea & Eh & _).
  apply (wf_context_keep c); [exact Hwf | |].
  - now rewrite Eh, length_alter.
  - unfold snapshot_refs. rewrite Eu, Er, Ea. reflexivity.
Qed.

Lemma wf_context_undo_push c action repeatable :
  wf_context c -> wf_context (exec (undo_push action repeatable) c).
Proof.
  intros Hwf. destruct (repeating action repeatable c) eqn:Hrep.
  - unfold exec. now rewrite undo_push_skip.
  - destruct (wf_context_live c Hwf) as [t Ht].
    destruct (undo_push_fields c action repeatable t Hrep Ht) as (Eu & Er & _ & Ea & Eh & _).
    set (c' := exec (undo_push action repeatable) c) in *. clearbody c'.
    apply (wf_context_alloc c); [exact Hwf | |].
    + rewrite Eh, length_app. cbn. lia.
    + unfold snapshot_refs. rewrite Eu, Er, Ea, app_nil_r.
      etrans; [apply submseteq_skip, fmap_submseteq, sublist_submseteq, sublist_take|].
      rewrite fmap_cons, fmap_app. cbn.
      etrans; [apply submseteq_swap|].
      apply submseteq_skip, submseteq_skip, submseteq_inserts_r. reflexivity.
Qed.

Lemma wf_context_undo_pop c : wf_context c -> wf_context (exec undo_pop c).
Proof.
  intros Hwf. destruct (undo c) as [|top rest] eqn:Hu.
  - unfold exec, undo_pop, bind, get. rewrite Hu. exact Hwf.
  - destruct (wf_context_live c Hwf) as [t Ht].
    destruct (undo_pop_fields c top rest t Hu Ht) as (Eu & Er & _ & Ea & Eh & _).
    set (c' := exec undo_pop c) in *. clearbody c'.
    apply (wf_context_alloc c); [exact Hwf | |].
    + rewrite Eh, length_alter, length_app. cbn. lia.
    + unfold snapshot_refs. rewrite Eu, Er, Ea, Hu.
      rewrite !fmap_app, !fmap_cons. cbn.
      rewrite <- Permutation_middle.
      etrans; [apply submseteq_swap|].
      apply submseteq_skip, submseteq_cons. reflexivity.
Qed.

Lemma wf_context_redo_pop c : wf_context c -> wf_context (exec redo_pop c).
Proof.
  intros Hwf. destruct (redo c) as [|top rest] eqn:Hu.
  - unfold exec, redo_pop, bind, get. rewrite Hu. exact Hwf.
  - destruct (wf_context_live c Hwf) as [t Ht].
    destruct (redo_pop_fields c top rest t Hu Ht) as (Eu & Er & _ & Ea & Eh & _).
    set (c' := exec redo_pop c) in *. clearbody c'.
    apply (wf_context_alloc c); [exact Hwf | |].
    + rewrite Eh, length_alter, length_app. cbn. lia.
    + unfold snapshot_refs. rewrite Eu, Er, Ea, Hu.
      rewrite !fmap_app, !fmap_cons. cbn.
      rewrite <- (Permutation_middle (st_rftarget <$> undo c)).
      etrans; [apply submseteq_swap|].
      apply submseteq_skip, submseteq_cons. reflexivity.
Qed.

Lemma wf_context_undo_cancel c : wf_context c -> wf_context (exec undo_cancel c).
Proof.
  intros Hwf. destruct (undo c) as [|top rest] eqn:Hu.
  - unfold exec, undo_cancel, bind, get. rewrite Hu. exact Hwf.
  - destruct (undo_cancel_fields c top rest Hu) as (Eu & Er & _ & Ea & Eh & _).
    set (c' := exec undo_cancel c) in *. clearbody c'.
    apply (wf_context_keep c); [exact Hwf | |].
    + now rewrite Eh, length_alter.
    + unfold snapshot_refs. rewrite Eu, Er, Ea, Hu.
      rewrite !fmap_app, !fmap_cons. cbn.
      apply submseteq_cons. reflexivity.
Qed.

Lemma wf_context_run_ops (ops : list (@HistoryOp Mesh)) : forall c,
  wf_context c -> wf_context (run_ops ops c).
Proof.
  induction ops as [|o ops IH]; intros c Hwf; [exact Hwf|].
  change (wf_context (run_ops ops (run_op o c))). apply IH.
  destruct o; unfold run_op.
  - now apply wf_context_undo_push.
  - now apply wf_context_undo_pop.
  - now apply wf_context_redo_pop.
  - now apply wf_context_undo_cancel.
  - now apply wf_context_mutate.
Qed.

(** Mutating the live mesh leaves every object a snapshot refers to as it is. *)
Lemma mutate_keeps_snapshots c f s :
  wf_context c -> s ∈ undo c ++ redo c ->
  heap (exec (mutate f) c) !! st_rftarget s = heap c !! st_rftarget s.
Proof.
  intros [Hnd _] Hin. destruct (mutate_fields c f) as (_ & _ & _ & _ & -> & _).
  apply list_lookup_alter_ne. intros E. apply NoDup_cons_1_1 in Hnd. apply Hnd.
  rewrite E. unfold snapshot_refs. now apply list_elem_of_fmap_2.
Qed.
End HistoryProperties.

(** * The history claims *)

Section HistoryClaims.
Context {Mesh Point Normal Dist Ray Plane Crawl : Type}.
Local Abbreviation Ctx := (@RFContext Mesh Point Normal Dist Ray Plane Crawl).
Implicit Types (c : Ctx) (s : State) (t : @RFTarget Mesh).
Local Arguments limit_stack_size : simpl never.

(** The stacks after each operation, whatever the object store holds. *)
Lemma undo_push_stacks c action repeatable :
  repeating action repeatable c = false ->
  exists s, st_action s = action /\ st_tool s = tool c /\
    undo (exec (undo_push action repeatable) c) = take (undo_depth c) (s :: undo c) /\
    redo (exec (undo_push action repeatable) c) = [] /\
    undo_depth (exec (undo_push action repeatable) c) = undo_depth c /\
    result (undo_push action repeatable) c = inl PyNone.
Proof.
  intros Hrep. run_method. rewrite Hrep.
  destruct (heap c !! rftarget c); cbn;
    rewrite limit_stack_size_take by (cbn; lia);
    destruct (options_instrument c); cbn;
    eexists (mkState action (tool c) _); repeat split; reflexivity.
Qed.

Lemma undo_pop_stacks c top rest :
  undo c = top :: rest ->
  exists s, st_action s = "undo" /\ st_tool s = tool c /\
    undo (exec undo_pop c) = rest /\
    redo (exec undo_pop c) = s :: redo c /\
    undo_depth (exec undo_pop c) = undo_depth c /\
    tool (exec undo_pop c) = st_tool top /\
    rftarget (exec undo_pop c) = st_rftarget top /\
    result undo_pop c = inl PyNone.
Proof.
  intros Hu. run_method. rewrite Hu.
  destruct (heap c !! rftarget c); cbn;
    destruct (options_instrument c); cbn;
    eexists (mkState "undo" (tool c) _); repeat split; reflexivity.
Qed.

Lemma redo_pop_stacks c top rest :
  redo c = top :: rest ->
  exists s, st_action s = "redo" /\ st_tool s = tool c /\
    undo (exec redo_pop c) = s :: undo c /\
    redo (exec redo_pop c) = rest /\
    undo_depth (exec redo_pop c) = undo_depth c /\
    tool (exec redo_pop c) = st_tool top /\
    rftarget (exec redo_pop c) = st_rftarget top /\
    result redo_pop c = inl PyNone.
Proof.
  intros Hu. run_method. rewrite Hu.
  destruct (heap c !! rftarget c); cbn;
    destruct (options_instrument c); cbn;
    eexists (mkState "redo" (tool c) _); repeat split; reflexivity.
Qed.

Lemma undo_cancel_stacks c top rest :
  undo c = top :: rest ->
  undo (exec undo_cancel c) = rest /\
  redo (exec undo_cancel c) = redo c /\
  undo_depth (exec undo_cancel c) = undo_depth c /\
  tool (exec undo_cancel c) = st_tool top /\
  rftarget (exec undo_cancel c) = st_rftarget top /\
  result undo_cancel c = inl PyNone.
Proof.
  intros Hu. run_method. rewrite Hu. cbn.
  destruct (options_instrument c); cbn; repeat split.
Qed.

Lemma undo_pop_empty c : undo c = [] -> undo_pop c = (inl PyNone, c).
Proof. intros H. unfold undo_pop, bind, get. now rewrite H. Qed.

Lemma redo_pop_empty c : redo c = [] -> redo_pop c = (inl PyNone, c).
Proof. intros H. unfold redo_pop, bind, get. now rewrite H. Qed.

Lemma undo_cancel_empty c : undo c = [] -> undo_cancel c = (inl PyNone, c).
Proof. intros H. unfold undo_cancel, bind, get. now rewrite H. Qed.

Lemma within_depth_run_op (o : @HistoryOp Mesh) c :
  within_depth c ->
  within_depth (run_op o c) /\ undo_depth (run_op o c) = undo_depth c.
Proof.
  unfold within_depth. intros H. destruct o as [a r| | | |f]; unfold run_op.
  - destruct (repeating a r c) eqn:Hrep.
    + unfold exec. rewrite undo_push_skip by exact Hrep. now split.
    + destruct (undo_push_stacks c a r Hrep) as (s & _ & _ & -> & -> & -> & _).
      split; [|reflexivity]. rewrite length_take. cbn. lia.
  - destruct (undo c) as [|top rest] eqn:Hu.
    + unfold exec. rewrite undo_pop_empty by exact Hu. cbn. rewrite Hu. now split.
    + destruct (undo_pop_stacks c top rest Hu) as (s & _ & _ & -> & -> & -> & _).
      cbn in *. split; [lia|reflexivity].
  - destruct (redo c) as [|top rest] eqn:Hu.
    + unfold exec. rewrite redo_pop_empty by exact Hu. cbn. rewrite Hu. now split.
    + destruct (redo_pop_stacks c top rest Hu) as (s & _ & _ & -> & -> & -> & _).
      cbn in *. split; [lia|reflexivity].
  - destruct (undo c) as [|top rest] eqn:Hu.
    + unfold exec. rewrite undo_cancel_empty by exact Hu. cbn. rewrite Hu. now split.
    + destruct (undo_cancel_stacks c top rest Hu) as (-> & -> & -> & _).
      cbn in *. split; [lia|reflexivity].
  - destruct (mutate_fields c f) as (-> & -> & _ & _ & _ & ->). now split.
Qed.

Lemma within_depth_run_ops (ops : list (@HistoryOp Mesh)) : forall c,
  within_depth c ->
  within_depth (run_ops ops c) /\ undo_depth (run_ops ops c) = undo_depth c.
Proof.
  induction ops as [|o ops IH]; intros c H; [now split|].
  change (run_ops (o :: ops) c) with (run_ops ops (run_op o c)).
  destruct (within_depth_run_op o c H) as [H1 E1].
  destruct (IH _ H1) as [H2 E2]. split; [exact H2 | congruence].
Qed.


(** C1. Snapshot fidelity of the history. (1) After the pushes
    [l1 ++ (f, a) :: l2] (never repeatable, at most [undo_depth] of them,
    each made after an edit of the live mesh) followed by
    [length l2 + 1] pops, the live mesh holds the topology it had
    immediately before the push of [(f, a)], the push that the last pop
    undoes. (2) A push stores a deep copy: the new snapshot holds the
    topology of the live mesh, and an edit of the live mesh made after the
    push changes no object that a stored snapshot refers to. (3)
    [undo_pop] on an empty undo stack changes nothing. *)
Theorem C1_snapshot_fidelity :
  (forall c0 (l1 l2 : list ((Mesh -> Mesh) * string)) f a (gs : list (Mesh -> Mesh)),
      is_Some (heap c0 !! rftarget c0) ->
      length (l1 ++ (f, a) :: l2) <= undo_depth c0 ->
      length gs = S (length l2) ->
      exists m,
        live_topology (exec (mutate f) (run_ops (push_script l1) c0)) = Some m /\
        live_topology
          (run_ops (pop_script gs)
             (run_ops (push_script (l1 ++ (f, a) :: l2)) c0)) = Some m) /\
  (forall c action f,
      wf_context c -> 0 < undo_depth c ->
      let c' := exec (undo_push action false) c in
      wf_context c' /\
      (exists top rest, undo c' = top :: rest /\ st_action top = action /\
         snapshot_topology c' top = live_topology c /\ is_Some (live_topology c)) /\
      (forall s, s ∈ undo c' ++ redo c' ->
         heap (exec (mutate f) c') !! st_rftarget s = heap c' !! st_rftarget s)) /\
  (forall c, undo c = [] -> undo_pop c = (inl PyNone, c)).
Proof.
  split; [|split].
  - intros. now apply snapshot_fidelity.
  - intros c action f Hwf Hdepth c'. subst c'.
    pose proof (wf_context_undo_push c action false Hwf) as Hwf'.
    split; [exact Hwf'|]. split.
    + destruct (wf_context_live c Hwf) as [t Ht].
      destruct (undo_push_fields c action false t eq_refl Ht)
        as (Eu & _ & _ & _ & Eh & _).
      destruct (undo_depth c) as [|d]; [lia|].
      eexists _, _. split; [exact Eu|]. split; [reflexivity|].
      unfold snapshot_topology, live_topology. rewrite Eh, Ht. cbn.
      rewrite list_lookup_middle by reflexivity. split; [reflexivity | eauto].
    + intros s Hs. now apply mutate_keeps_snapshots.
  - apply undo_pop_empty.
Qed.

(** C3, as the code has it. [undo_pop], [redo_pop] and [undo_cancel] return
    [None] in every case. On an empty stack the call changes nothing; on a
    stack whose newest entry is [top] the entry is popped and the session
    is restored to it (its target object and its tool become the live
    ones). *)
Theorem C3_history_results_are_None :
  forall c,
    result undo_pop c = inl PyNone /\
    result redo_pop c = inl PyNone /\
    result undo_cancel c = inl PyNone /\
    (undo c = [] -> exec undo_pop c = c /\ exec undo_cancel c = c) /\
    (redo c = [] -> exec redo_pop c = c) /\
    (forall top rest, undo c = top :: rest ->
       undo (exec undo_pop c) = rest /\
       rftarget (exec undo_pop c) = st_rftarget top /\
       tool (exec undo_pop c) = st_tool top /\
       undo (exec undo_cancel c) = rest /\
       rftarget (exec undo_cancel c) = st_rftarget top /\
       tool (exec undo_cancel c) = st_tool top) /\
    (forall top rest, redo c = top :: rest ->
       redo (exec redo_pop c) = rest /\
       rftarget (exec redo_pop c) = st_rftarget top /\
       tool (exec redo_pop c) = st_tool top).
Proof.
  intros c. repeat split.
  - destruct (undo c) as [|top rest] eqn:Hu.
    + unfold result. now rewrite undo_pop_empty.
    + now destruct (undo_pop_stacks c top rest Hu) as (s & _ & _ & _ & _ & _ & _ & _ & ->).
  - destruct (redo c) as [|top rest] eqn:Hu.
    + unfold result. now rewrite redo_pop_empty.
    + now destruct (redo_pop_stacks c top rest Hu) as (s & _ & _ & _ & _ & _ & _ & _ & ->).
  - destruct (undo c) as [|top rest] eqn:Hu.
    + unfold result. now rewrite undo_cancel_empty.
    + now destruct (undo_cancel_stacks c top rest Hu) as (_ & _ & _ & _ & _ & ->).
  - unfold exec. now rewrite undo_pop_empty.
  - unfold exec. now rewrite undo_cancel_empty.
  - intros H. unfold exec. now rewrite redo_pop_empty.
  - now destruct (undo_pop_stacks c top rest H) as (s & _ & _ & -> & _).
  - now destruct (undo_pop_stacks c top rest H) as (s & _ & _ & _ & _ & _ & _ & -> & _).
  - now destruct (undo_pop_stacks c top rest H) as (s & _ & _ & _ & _ & _ & -> & _).
  - now destruct (undo_cancel_stacks c top rest H) as (-> & _).
  - now destruct (undo_cancel_stacks c top rest H) as (_ & _ & _ & _ & -> & _).
  - now destruct (undo_cancel_stacks c top rest H) as (_ & _ & _ & -> & _).
  - now destruct (redo_pop_stacks c top rest H) as (s & _ & _ & _ & -> & _).
  - now destruct (redo_pop_stacks c top rest H) as (s & _ & _ & _ & _ & _ & _ & -> & _).
  - now destruct (redo_pop_stacks c top rest H) as (s & _ & _ & _ & _ & _ & -> & _).
Qed.

Lemma take_app_take {A} n (l k : list A) :
  take n (l ++ take n k) = take n (l ++ k).
Proof. rewrite !take_app, take_take. do 2 f_equal. lia. Qed.

(** The labels on the undo stack after pushes, each after an edit: the
    labels pushed, newest first, on top of the old ones, cut at the bound. *)
Lemma push_script_actions (l : list ((Mesh -> Mesh) * string)) : forall c,
  length (undo c) <= undo_depth c ->
  st_action <$> undo (run_ops (push_script l) c) =
    take (undo_depth c) (rev (snd <$> l) ++ (st_action <$> undo c)).
Proof.
  induction l as [|[f a] l IH]; intros c Hlen.
  - cbn. symmetry. apply take_ge. rewrite length_fmap. exact Hlen.
  - rewrite push_script_cons.
    destruct (mutate_fields c f) as (Eu & _ & _ & _ & _ & Ed).
    set (c1 := exec (mutate f) c) in *.
    destruct (undo_push_stacks c1 a false eq_refl) as (s & Ha & _ & Eu2 & _ & Ed2 & _).
    set (c2 := exec (undo_push a false) c1) in *. clearbody c2 c1.
    rewrite IH by (rewrite Eu2, Ed2, length_take; lia).
    rewrite Eu2, Eu, Ed2, Ed, fmap_take, fmap_cons, Ha, take_app_take.
    cbn [fmap list_fmap snd rev]. now rewrite <- app_assoc.
Qed.

(** C4. Bounded undo stack. From empty stacks, after any script of
    [undo_push], [undo_pop], [redo_pop], [undo_cancel] and edits,
    [len(undo) <= undo_depth] (indeed [len(undo) + len(redo) <= undo_depth],
    which is why [redo_pop] needs no eviction). Eviction is first in, first
    out: in every context a push that is not skipped leaves the new
    snapshot on top of the old stack, cut to the [undo_depth] newest
    entries, so on a full stack it is the old stack without its oldest
    entry; and after pushes from empty stacks the stack holds the labels of
    the [undo_depth] most recent pushes, newest first. *)
Theorem C4_undo_stack_bounded :
  forall c0 (ops : list (@HistoryOp Mesh)),
    undo c0 = [] -> redo c0 = [] ->
    let c := run_ops ops c0 in
    length (undo c) <= undo_depth c /\
    length (undo c) + length (redo c) <= undo_depth c /\
    undo_depth c = undo_depth c0 /\
    (forall c1 action repeatable,
        repeating action repeatable c1 = false ->
        exists s, st_action s = action /\ st_tool s = tool c1 /\
          undo (exec (undo_push action repeatable) c1) =
            take (undo_depth c1) (s :: undo c1) /\
          (length (undo c1) = undo_depth c1 -> 0 < undo_depth c1 ->
             undo (exec (undo_push action repeatable) c1) = s :: removelast (undo c1) /\
             length (undo (exec (undo_push action repeatable) c1)) = undo_depth c1)) /\
    (forall l : list ((Mesh -> Mesh) * string),
        st_action <$> undo (run_ops (push_script l) c0) =
          take (undo_depth c0) (rev (snd <$> l))).
Proof.
  intros c0 ops Hu Hr c.
  assert (H0 : within_depth c0) by (unfold within_depth; rewrite Hu, Hr; cbn; lia).
  destruct (within_depth_run_ops ops c0 H0) as [H E]. fold c in H, E.
  unfold within_depth in H.
  split; [lia|]. split; [exact H|]. split; [exact E|]. split.
  - intros c1 action repeatable Hrep.
    destruct (undo_push_stacks c1 action repeatable Hrep) as (s & Ha & Ht & Eu & _).
    exists s. split; [exact Ha|]. split; [exact Ht|]. split; [exact Eu|].
    intros Hfull Hpos. rewrite Eu.
    destruct (undo_depth c1) as [|d] eqn:Hd; [lia|]. cbn [take].
    rewrite removelast_firstn_len, Hfull. cbn. split; [reflexivity|].
    rewrite length_take. lia.
  - intros l. rewrite push_script_actions by (rewrite Hu; cbn; lia).
    now rewrite Hu, app_nil_r.
Qed.

(** C5, as the code has it. A call of [undo_push] that is not skipped by
    the repeatable rule (so [repeatable] is false, or the undo stack is
    empty, or its newest entry carries another label) leaves the redo stack
    empty: a [redo_pop] right after it changes nothing and returns [None]. *)
Theorem C5_push_clears_redo :
  forall c action repeatable,
    repeating action repeatable c = false ->
    let c' := exec (undo_push action repeatable) c in
    redo c' = [] /\ redo_pop c' = (inl PyNone, c').
Proof.
  intros c action repeatable Hrep c'. subst c'.
  destruct (undo_push_stacks c action repeatable Hrep) as (s & _ & _ & _ & Er & _).
  split; [exact Er | now apply redo_pop_empty].
Qed.

(** C6. A repeatable push whose label is the one on top of the undo stack
    is a no-op: the context (stacks, target mesh, tool, calls made) is
    unchanged. *)
Theorem C6_repeatable_push_idempotent :
  forall c action top rest,
    undo c = top :: rest -> st_action top = action ->
    undo_push action true c = (inl PyNone, c).
Proof.
  intros c action top rest Hu Ha. apply undo_push_skip.
  unfold repeating. rewrite Hu, Ha. cbn. apply String.eqb_refl.
Qed.

(** C7. Undo / redo round trip. With a non-empty undo stack, [undo_pop]
    followed by [redo_pop] brings back the topology of the target mesh and
    the active tool of before the [undo_pop]; the redo stack is as before
    and the undo stack has its old length. *)
Theorem C7_undo_redo_round_trip :
  forall c,
    wf_context c -> undo c <> [] ->
    let c' := exec redo_pop (exec undo_pop c) in
    is_Some (live_topology c) /\
    live_topology c' = live_topology c /\
    tool c' = tool c /\
    redo c' = redo c /\
    length (undo c') = length (undo c).
Proof.
  intros c Hwf Hne c'. subst c'.
  destruct (undo c) as [|top rest] eqn:Hu; [congruence|].
  destruct (wf_context_live c Hwf) as [t Ht].
  pose proof (wf_context_undo_pop c Hwf) as Hwf1.
  destruct (undo_pop_fields c top rest t Hu Ht) as (Eu1 & Er1 & Et1 & Ea1 & Eh1 & _).
  set (c1 := exec undo_pop c) in *.
  destruct (wf_context_live c1 Hwf1) as [t1 Ht1].
  destruct (redo_pop_fields c1 _ _ t1 Er1 Ht1) as (Eu2 & Er2 & Et2 & Ea2 & Eh2 & _).
  set (c2 := exec redo_pop c1) in *. clearbody c2 c1.
  assert (Hlen1 : length (heap c1) = S (length (heap c)))
    by (rewrite Eh1, length_alter, length_app; cbn; lia).
  assert (Htop : st_rftarget top < length (heap c)).
  { destruct Hwf as [_ Hv]. rewrite Forall_forall in Hv. apply Hv.
    apply elem_of_cons. right. unfold snapshot_refs. rewrite Hu. cbn.
    apply elem_of_cons. now left. }
  unfold live_topology. rewrite Ht. split; [cbn; eauto|].
  rewrite Ea2, Eh2, Et2, Er2, Eu2. cbn [st_rftarget st_tool length].
  rewrite Eu1. repeat split.
  rewrite list_lookup_alter_eq.
  rewrite lookup_app_l by lia.
  rewrite Eh1, list_lookup_alter_ne by lia.
  rewrite list_lookup_middle by reflexivity. reflexivity.
Qed.

End HistoryClaims.

(** * Properties of the queries over the sources *)

Section QueryProperties.
Context {Point Normal Dist Ray Plane Point2D Crawl : Type}.
Local Abbreviation Src := (@RFSource Point Normal Dist Ray Plane Crawl).
Local Abbreviation Hit := (@Hit4 Point Normal Dist).
Variable dist_ltb : Dist -> Dist -> bool.
Implicit Types (srcs : list Src) (h best r : Hit) (bo : option Src)
  (query : Src -> Hit).

Lemma is_hit_not_no_hit h d : is_hit h d -> h <> no_hit.
Proof. intros (p & n & i & ->). discriminate. Qed.

Lemma is_hit_inj h d d' : is_hit h d -> is_hit h d' -> d = d'.
Proof. intros (p & n & i & ->) (p' & n' & i' & E). congruence. Qed.

Lemma closer_from_no_hit h : closer dist_ltb h no_hit = inl true.
Proof. now destruct h as [[[hp hn] hi] hd]. Qed.

Lemma closer_no_hit best d :
  is_hit best d -> closer dist_ltb no_hit best = inl false.
Proof. now intros (p & n & i & ->). Qed.

Lemma closer_hits h best d d' :
  is_hit h d -> is_hit best d' -> closer dist_ltb h best = inl (dist_ltb d d').
Proof. now intros (p & n & i & ->) (p' & n' & i' & ->). Qed.

(** The three loops of the source are instances of [best_of]. *)
Lemma crawl_loop_best_of ray srcs : forall best bo,
  crawl_loop dist_ltb ray srcs best bo =
  best_of dist_ltb (fun s => raycast s ray) srcs best bo.
Proof.
  induction srcs as [|s srcs IH]; intros best bo; [reflexivity|].
  cbn. destruct (closer dist_ltb (raycast s ray) best) as [[|]|e]; auto.
Qed.

Lemma raycast_sources_loop_best_of ray srcs : forall best bo,
  raycast_sources_loop dist_ltb ray srcs best =
  match best_of dist_ltb (fun s => raycast s ray) srcs best bo with
  | inl (r, _) => inl r
  | inr e => inr e
  end.
Proof.
  induction srcs as [|s srcs IH]; intros best bo; [reflexivity|].
  cbn. destruct (closer dist_ltb (raycast s ray) best) as [[|]|e]; auto.
Qed.

Lemma nearest_sources_loop_best_of point max_dist srcs : forall best bo,
  nearest_sources_loop dist_ltb point max_dist srcs best =
  match best_of dist_ltb (fun s => nearest s point max_dist) srcs best bo with
  | inl (r, _) => inl r
  | inr e => inr e
  end.
Proof.
  induction srcs as [|s srcs IH]; intros best bo; [reflexivity|].
  cbn. destruct (closer dist_ltb (nearest s point max_dist) best) as [[|]|e]; auto.
Qed.

Lemma best_of_app query (l1 l2 : list Src) : forall best bo,
  best_of dist_ltb query (l1 ++ l2) best bo =
  match best_of dist_ltb query l1 best bo with
  | inl (b, o) => best_of dist_ltb query l2 b o
  | inr e => inr e
  end.
Proof.
  induction l1 as [|s l1 IH]; intros best bo; [reflexivity|].
  cbn. destruct (closer dist_ltb (query s) best) as [[|]|e]; auto.
Qed.

(** On well-formed answers the loop never compares with [None]: it
    returns, and what it returns is well formed. *)
Lemma best_of_returns query srcs : forall best bo,
  well_formed_hit best ->
  Forall (fun s => well_formed_hit (query s)) srcs ->
  exists r o, best_of dist_ltb query srcs best bo = inl (r, o) /\ well_formed_hit r.
Proof.
  induction srcs as [|s srcs IH]; intros best bo Hb Hs; [cbn; eauto|].
  apply Forall_cons in Hs as [Hq Hs]. cbn.
  destruct Hb as [->|[d Hd]].
  - rewrite closer_from_no_hit. now apply IH.
  - destruct Hq as [Eq|[d' Hd']].
    + rewrite Eq, (closer_no_hit _ _ Hd). apply IH; [right; eauto | exact Hs].
    + rewrite (closer_hits _ _ _ _ Hd' Hd).
      destruct (dist_ltb d' d); apply IH; trivial; right; eauto.
Qed.

(** The tuple kept does not depend on the owner carried along. *)
Lemma best_of_owner_irrelevant query srcs : forall best bo bo',
  match best_of dist_ltb query srcs best bo with
  | inl (r, _) => inl r
  | inr e => inr e
  end =
  match best_of dist_ltb query srcs best bo' with
  | inl (r, _) => inl r
  | inr e => inr e
  end :> Hit + Exn.
Proof.
  induction srcs as [|s srcs IH]; intros best bo bo'; [reflexivity|].
  cbn. destruct (closer dist_ltb (query s) best) as [[|]|e]; auto.
Qed.

(** A source that misses changes nothing, wherever it stands in the list. *)
Lemma best_of_skip_miss query (l1 l2 : list Src) s :
  Forall (fun s => well_formed_hit (query s)) l1 ->
  query s = no_hit ->
  match best_of dist_ltb query (l1 ++ s :: l2) no_hit None with
  | inl (r, _) => inl r
  | inr e => inr e
  end =
  match best_of dist_ltb query (l1 ++ l2) no_hit None with
  | inl (r, _) => inl r
  | inr e => inr e
  end :> Hit + Exn.
Proof.
  intros H1 Hs. rewrite !best_of_app.
  destruct (best_of_returns query l1 no_hit None (or_introl eq_refl) H1)
    as (b & o & -> & Hb).
  cbn. rewrite Hs. destruct Hb as [->|[d Hd]].
  - rewrite closer_from_no_hit. apply best_of_owner_irrelevant.
  - now rewrite (closer_no_hit _ _ Hd).
Qed.

Section Ordered.
Context `{!StrictWeakOrder dist_ltb}.

Lemma nearest_first_snoc_miss (rs : list Hit) j d :
  nearest_first dist_ltb rs j d -> j < length rs ->
  nearest_first dist_ltb (rs ++ [no_hit]) j d.
Proof.
  intros H Hj i h di Hi Hh.
  apply lookup_snoc_Some in Hi as [[_ Hi]|[_ <-]]; [eauto|].
  now apply is_hit_not_no_hit in Hh.
Qed.

Lemma best_of_reduced query srcs :
  Forall (fun s => well_formed_hit (query s)) srcs ->
  exists r bo,
    best_of dist_ltb query srcs no_hit None = inl (r, bo) /\
    reduced dist_ltb srcs (query <$> srcs) r bo.
Proof.
  induction srcs as [|s srcs IH] using rev_ind; intros Hs.
  - exists no_hit, None. split; [reflexivity|]. left. split; [reflexivity | constructor].
  - apply Forall_app in Hs as [Hs Hq]. apply Forall_cons in Hq as [Hq _].
    destruct (IH Hs) as (r & bo & E & Hred).
    rewrite best_of_app, E, fmap_app. cbn.
    assert (Hlen : length (query <$> srcs) = length srcs) by apply length_fmap.
    destruct Hred as [(-> & Hall)|(j & d & Hj & Hbo & Hsome & Hd & Hnf)].
    + (* nothing kept so far *)
      rewrite closer_from_no_hit. eexists _, _. split; [reflexivity|].
      destruct Hq as [Eq|[d Hd]].
      * left. rewrite Eq. split; [reflexivity|]. apply Forall_app.
        split; [exact Hall | now constructor].
      * right. exists (length srcs), d. refine (conj _ (conj _ (conj _ (conj _ _)))).
        -- rewrite <- Hlen. now apply list_lookup_middle.
        -- now rewrite list_lookup_middle.
        -- eauto.
        -- exact Hd.
        -- intros i h di Hi Hh.
           apply lookup_snoc_Some in Hi as [[Hlt Hi]|[Hi <-]].
           ++ rewrite Forall_forall in Hall.
              assert (h = no_hit) by (apply Hall; eapply list_elem_of_lookup_2; eauto).
              subst h. now apply is_hit_not_no_hit in Hh.
           ++ rewrite (is_hit_inj _ _ _ Hh Hd). split; [lia|].
              intros _. apply ltb_irrefl.
    + (* a hit at [j] is kept *)
      assert (Hjlt : j < length srcs).
      { rewrite <- Hlen. eapply lookup_lt_Some; eauto. }
      destruct Hq as [Eq|[d' Hd']].
      * rewrite Eq, (closer_no_hit _ _ Hd). eexists _, _. split; [reflexivity|].
        right. exists j, d. refine (conj _ (conj _ (conj Hsome (conj Hd _)))).
        -- now apply lookup_app_l_Some.
        -- rewrite Hbo. symmetry. now apply lookup_app_l.
        -- apply nearest_first_snoc_miss; [exact Hnf | lia].
      * rewrite (closer_hits _ _ _ _ Hd' Hd).
        destruct (dist_ltb d' d) eqn:Hlt; eexists _, _; (split; [reflexivity|]); right.
        -- exists (length srcs), d'. refine (conj _ (conj _ (conj _ (conj _ _)))).
           ++ rewrite <- Hlen. now apply list_lookup_middle.
           ++ now rewrite list_lookup_middle.
           ++ eauto.
           ++ exact Hd'.
           ++ intros i h di Hi Hh.
              apply lookup_snoc_Some in Hi as [[Hi' Hi]|[Hi <-]].
              ** destruct (Hnf i h di Hi Hh) as [Hbefore Hafter].
                 split; [intros _ | lia].
                 destruct (Nat.lt_ge_cases i j) as [Hij|Hij].
                 --- eapply ltb_trans; eauto.
                 --- destruct (ltb_cotrans d' d di Hlt) as [H1|H1]; [exact H1|].
                     rewrite Hafter in H1 by exact Hij. discriminate.
              ** rewrite (is_hit_inj _ _ _ Hh Hd'). split; [lia|].
                 intros _. apply ltb_irrefl.
        -- exists j, d. refine (conj _ (conj _ (conj Hsome (conj Hd _)))).
           ++ now apply lookup_app_l_Some.
           ++ rewrite Hbo. symmetry. now apply lookup_app_l.
           ++ intros i h di Hi Hh.
              apply lookup_snoc_Some in Hi as [[Hi' Hi]|[Hi <-]]; [eauto|].
              rewrite (is_hit_inj _ _ _ Hh Hd'). split; [lia|]. now intros _.
Qed.


Lemma raycast_sources_Ray_reduced srcs ray :
  Forall (fun s => well_formed_hit (raycast s ray)) srcs ->
  exists r bo,
    raycast_sources_Ray dist_ltb srcs ray = inl r /\
    crawl_loop dist_ltb ray srcs no_hit None = inl (r, bo) /\
    reduced dist_ltb srcs ((fun s => raycast s ray) <$> srcs) r bo.
Proof.
  intros Hwf. destruct (best_of_reduced _ srcs Hwf) as (r & bo & E & Hred).
  exists r, bo. unfold raycast_sources_Ray.
  rewrite (raycast_sources_loop_best_of ray srcs no_hit None), crawl_loop_best_of, E.
  auto.
Qed.

(** What [reduced] says when some source hits. *)
Lemma reduced_hit srcs (rs : list Hit) r bo i h d :
  reduced dist_ltb srcs rs r bo -> rs !! i = Some h -> is_hit h d ->
  exists j d', rs !! j = Some r /\ bo = srcs !! j /\ is_Some bo /\
               is_hit r d' /\ nearest_first dist_ltb rs j d'.
Proof.
  intros [(-> & Hall)|(j & d' & H)] Hi Hh.
  - rewrite Forall_forall in Hall.
    assert (h = no_hit) by (apply Hall; eapply list_elem_of_lookup_2; eauto).
    subst h. now apply is_hit_not_no_hit in Hh.
  - exists j, d'. exact H.
Qed.

Lemma reduced_miss srcs (rs : list Hit) r bo :
  reduced dist_ltb srcs rs r bo -> Forall (fun h => h = no_hit) rs -> r = no_hit.
Proof.
  intros [(-> & _)|(j & d & Hj & _ & _ & Hd & _)] Hall; [reflexivity|].
  rewrite Forall_forall in Hall. apply Hall. eapply list_elem_of_lookup_2; eauto.
Qed.

(** C2. The reduction rule of [raycast_sources_Ray]. On per-source results
    that are each the no-hit tuple or a hit carrying a distance, the call
    returns a tuple [r]: the no-hit tuple when every source misses;
    otherwise one of the hits, at the smallest distance, and the earliest
    of the sources at that distance (every earlier hit is strictly
    farther, no later hit is strictly nearer). A source that misses never
    replaces what is kept: without it the result is the same. For three
    sources reporting no hit, a hit at [d5] and a hit at [d2 < d5], the
    result is the third source's hit. *)
Theorem C2_raycast_reduction srcs ray :
  Forall (fun s => well_formed_hit (raycast s ray)) srcs ->
  let rs := (fun s => raycast s ray) <$> srcs in
  exists r,
    raycast_sources_Ray dist_ltb srcs ray = inl r /\
    (Forall (fun h => h = no_hit) rs -> r = no_hit) /\
    (forall i h d, rs !! i = Some h -> is_hit h d ->
       exists j d', rs !! j = Some r /\ is_hit r d' /\
                    nearest_first dist_ltb rs j d') /\
    (forall l1 s l2, srcs = l1 ++ s :: l2 -> raycast s ray = no_hit ->
       raycast_sources_Ray dist_ltb (l1 ++ l2) ray = inl r) /\
    (forall s0 s1 s2 d5 d2, srcs = [s0; s1; s2] ->
       raycast s0 ray = no_hit -> is_hit (raycast s1 ray) d5 ->
       is_hit (raycast s2 ray) d2 -> dist_ltb d2 d5 = true ->
       r = raycast s2 ray).
Proof.
  intros Hwf rs.
  destruct (raycast_sources_Ray_reduced srcs ray Hwf) as (r & bo & E & _ & Hred).
  exists r. split; [exact E|]. split; [|split; [|split]].
  - intros Hall. eapply reduced_miss; eauto.
  - intros i h d Hi Hh.
    destruct (reduced_hit _ _ _ _ _ _ _ Hred Hi Hh) as (j & d' & Hj & _ & _ & Hd & Hnf).
    eauto.
  - intros l1 s l2 -> Hs. apply Forall_app in Hwf as [H1 _].
    unfold raycast_sources_Ray in *.
    rewrite (raycast_sources_loop_best_of ray (l1 ++ l2) no_hit None).
    rewrite (raycast_sources_loop_best_of ray (l1 ++ s :: l2) no_hit None) in E.
    rewrite <- E. symmetry.
    apply (best_of_skip_miss (fun s => raycast s ray)); assumption.
  - intros s0 s1 s2 d5 d2 -> H0 H1 H2 Hlt.
    unfold raycast_sources_Ray in E. cbn in E.
    rewrite H0, closer_from_no_hit in E.
    destruct (raycast s1 ray) as [[[p1 n1] i1] o1] eqn:E1.
    destruct (raycast s2 ray) as [[[p2 n2] i2] o2] eqn:E2.
    destruct H1 as (? & ? & ? & [= -> -> -> ->]).
    destruct H2 as (? & ? & ? & [= -> -> -> ->]).
    cbn in E. rewrite Hlt in E. congruence.
Qed.

(** X10. The distance of the nearest hit does not depend on the order in which
    the sources are asked: two orders give hits of which neither is
    strictly nearer than the other. *)
Lemma raycast_sources_Ray_order_independent srcs srcs' ray r r' d d' :
  srcs ≡ₚ srcs' ->
  Forall (fun s => well_formed_hit (raycast s ray)) srcs ->
  raycast_sources_Ray dist_ltb srcs ray = inl r ->
  raycast_sources_Ray dist_ltb srcs' ray = inl r' ->
  is_hit r d -> is_hit r' d' ->
  dist_ltb d d' = false /\ dist_ltb d' d = false.
Proof.
  intros Hperm Hwf E E' Hd Hd'.
  assert (Hwf' : Forall (fun s => well_formed_hit (raycast s ray)) srcs')
    by now rewrite <- Hperm.
  destruct (raycast_sources_Ray_reduced srcs ray Hwf) as (r1 & bo & E1 & _ & Hred).
  destruct (raycast_sources_Ray_reduced srcs' ray Hwf') as (r2 & bo' & E2 & _ & Hred').
  rewrite E in E1. rewrite E' in E2. injection E1 as <-. injection E2 as <-.
  set (q := fun s : Src => raycast s ray) in *.
  assert (Hin : forall (l l' : list Src) x bx dx,
             l ≡ₚ l' -> reduced dist_ltb l (q <$> l) x bx -> is_hit x dx ->
             exists i, (q <$> l') !! i = Some x).
  { intros l l' x bx dx Hp [(-> & _)|(j & dj & Hj & _)] Hx.
    - now apply is_hit_not_no_hit in Hx.
    - apply list_elem_of_lookup. rewrite <- Hp. eapply list_elem_of_lookup_2; eauto. }
  destruct (Hin _ _ _ _ _ Hperm Hred Hd) as [i Hi].
  destruct (Hin _ _ _ _ _ (symmetry Hperm) Hred' Hd') as [i' Hi'].
  destruct (reduced_hit _ _ _ _ _ _ _ Hred Hi' Hd') as (j & dj & Hj & _ & _ & Hdj & Hnf).
  destruct (reduced_hit _ _ _ _ _ _ _ Hred' Hi Hd) as (j' & dj' & Hj' & _ & _ & Hdj' & Hnf').
  rewrite (is_hit_inj _ _ _ Hdj Hd) in Hnf.
  rewrite (is_hit_inj _ _ _ Hdj' Hd') in Hnf'.
  destruct (Hnf _ _ _ Hi' Hd') as [A1 A2].
  destruct (Hnf' _ _ _ Hi Hd) as [B1 B2].
  assert (Hasym : forall x y, dist_ltb x y = true -> dist_ltb y x = true -> False).
  { intros x y Hxy Hyx. pose proof (ltb_trans _ _ _ Hxy Hyx) as H.
    rewrite ltb_irrefl in H. discriminate. }
  destruct (Nat.lt_ge_cases i' j) as [H1|H1]; destruct (Nat.lt_ge_cases i j') as [H2|H2].
  - exfalso. eauto.
  - specialize (A1 H1). specialize (B2 H2). congruence.
  - specialize (A2 H1). specialize (B1 H2). congruence.
  - auto.
Qed.

(** X11. [nearest_sources_Point] reduces the per-source nearest points by the
    same rule: the no-hit tuple when no source answers, else the nearest
    answer, the earliest of equals. *)
Lemma nearest_sources_Point_reduction srcs point max_dist :
  Forall (fun s => well_formed_hit (nearest s point max_dist)) srcs ->
  let rs := (fun s => nearest s point max_dist) <$> srcs in
  exists r,
    nearest_sources_Point dist_ltb srcs point max_dist = inl r /\
    (Forall (fun h => h = no_hit) rs -> r = no_hit) /\
    (forall i h d, rs !! i = Some h -> is_hit h d ->
       exists j d', rs !! j = Some r /\ is_hit r d' /\
                    nearest_first dist_ltb rs j d').
Proof.
  intros Hwf rs.
  destruct (best_of_reduced (fun s => nearest s point max_dist) srcs Hwf)
    as (r & bo & E & Hred).
  exists r. unfold nearest_sources_Point.
  rewrite (nearest_sources_loop_best_of point max_dist srcs no_hit None), E.
  split; [reflexivity|]. split.
  - intros Hall. eapply reduced_miss; eauto.
  - intros i h d Hi Hh.
    destruct (reduced_hit _ _ _ _ _ _ _ Hred Hi Hh) as (j & d' & Hj & _ & _ & Hd & Hnf).
    eauto.
Qed.

End Ordered.

Variable Point_truth : Point -> bool.

Lemma crawl_loop_all_miss ray srcs : forall bo,
  Forall (fun s => raycast s ray = no_hit) srcs ->
  exists bo', crawl_loop dist_ltb ray srcs no_hit bo = inl (no_hit, bo').
Proof.
  induction srcs as [|s srcs IH]; intros bo Hs; [cbn; eauto|].
  apply Forall_cons in Hs as [Hq Hs]. cbn. rewrite Hq. cbn. now apply IH.
Qed.

Lemma flat_map_all_nil {A B} (f : A -> list B) (l : list A) :
  Forall (fun x => f x = []) l -> flat_map f l = [].
Proof.
  induction 1 as [|x l Hx _ IH]; [reflexivity|]. cbn. now rewrite Hx, IH.
Qed.

(** C9. Crawling on a total miss. [plane_intersection_crawl] returns the
    empty list when the ray hits no source, and
    [plane_intersections_crawl] returns the empty list when the plane
    meets no source; on well-formed per-source results
    [plane_intersection_crawl] returns a list (it does not raise). When
    some source is hit (and a [Point] object is truthy), the result is what
    the plane-intersection routine of one source returns, walking or not
    as asked: the source that owns the nearest hit, the earliest of the
    nearest. *)
Theorem C9_crawl_on_miss srcs ray plane walk :
  (Forall (fun s => raycast s ray = no_hit) srcs ->
     plane_intersection_crawl dist_ltb Point_truth srcs ray plane walk = inl []) /\
  (Forall (fun s => plane_intersections_crawl_of s plane = []) srcs ->
     plane_intersections_crawl srcs plane = []) /\
  (StrictWeakOrder dist_ltb ->
   Forall (fun s => well_formed_hit (raycast s ray)) srcs ->
     (exists segs,
        plane_intersection_crawl dist_ltb Point_truth srcs ray plane walk = inl segs) /\
     ((forall p, Point_truth p = true) ->
      let rs := (fun s => raycast s ray) <$> srcs in
      forall i h d, rs !! i = Some h -> is_hit h d ->
        exists j s d',
          srcs !! j = Some s /\ is_hit (raycast s ray) d' /\
          nearest_first dist_ltb rs j d' /\
          plane_intersection_crawl dist_ltb Point_truth srcs ray plane walk =
            inl (if walk then plane_intersection_walk_crawl_of s ray plane
                 else plane_intersection_crawl_of s ray plane))).
Proof.
  split; [|split].
  - intros Hmiss. unfold plane_intersection_crawl.
    destruct (crawl_loop_all_miss ray srcs None Hmiss) as [bo ->]. reflexivity.
  - apply flat_map_all_nil.
  - intros Hord Hwf.
    destruct (raycast_sources_Ray_reduced srcs ray Hwf) as (r & bo & _ & E & Hred).
    unfold plane_intersection_crawl. rewrite E. split.
    + destruct Hred as [(-> & _)|(j & d & Hj & Hbo & [s Hs] & (p & n & i & ->) & _)].
      * cbn. eauto.
      * cbn. destruct (Point_truth p); cbn; [|eauto].
        rewrite Hs. destruct walk; eauto.
    + intros Htruth i h d Hi Hh.
      destruct (reduced_hit _ _ _ _ _ _ _ Hred Hi Hh)
        as (j & d' & Hj & Hbo & [s Hs] & Hd & Hnf).
      exists j, s, d'. rewrite Hs in Hbo. symmetry in Hbo.
      assert (Er : raycast s ray = r).
      { rewrite list_lookup_fmap, Hbo in Hj. now injection Hj. }
      rewrite Er. split; [exact Hbo|]. split; [exact Hd|]. split; [exact Hnf|].
      destruct Hd as (p & n & k & ->). cbn. rewrite Htruth. cbn. rewrite Hs.
      now destruct walk.
Qed.

Variable Point2D_to_Ray : Point2D -> Ray.
Variable Point_to_Point2D : Point -> option Point2D.

Lemma raycast_sources_Ray_all_miss srcs ray :
  Forall (fun s => raycast s ray = no_hit) srcs ->
  raycast_sources_Ray dist_ltb srcs ray = inl no_hit.
Proof.
  intros Hmiss. unfold raycast_sources_Ray.
  rewrite (raycast_sources_loop_best_of ray srcs no_hit None), <- crawl_loop_best_of.
  now destruct (crawl_loop_all_miss ray srcs None Hmiss) as [bo ->].
Qed.

(** C10. The result shape of [raycast_sources_Point2D_all]. For [xy = None]
    the call returns the 4-tuple of [None]s; for every other screen point
    it returns a list (the hits of all sources along the point's ray), so
    the two results never have the same shape. [raycast_sources_Point2D]
    instead returns the same 4-tuple for [None] and for a point whose ray
    hits no source. *)
Theorem C10_Point2D_all_result_shape srcs :
  raycast_sources_Point2D_all Point2D_to_Ray srcs None =
    py_tuple (None, None, None, None) /\
  (forall xy,
     raycast_sources_Point2D_all Point2D_to_Ray srcs (Some xy) =
       py_list (raycast_sources_Ray_all srcs (Point2D_to_Ray xy)) /\
     raycast_sources_Point2D_all Point2D_to_Ray srcs (Some xy) <>
       raycast_sources_Point2D_all Point2D_to_Ray srcs None) /\
  raycast_sources_Point2D dist_ltb Point2D_to_Ray srcs None =
    inl (None, None, None, None) /\
  (forall xy,
     Forall (fun s => raycast s (Point2D_to_Ray xy) = no_hit) srcs ->
     raycast_sources_Point2D dist_ltb Point2D_to_Ray srcs (Some xy) =
       raycast_sources_Point2D dist_ltb Point2D_to_Ray srcs None).
Proof.
  split; [reflexivity|]. split; [|split; [reflexivity|]].
  - intros xy. split; [reflexivity | discriminate].
  - intros xy Hmiss. cbn. now apply raycast_sources_Ray_all_miss.
Qed.

(** [raycast_sources_Ray_all] and [plane_intersections_crawl] concatenate
    the per-source answers in source order: an element of the result is an
    answer of some source, and the result over two lists of sources is the
    result over the first followed by the result over the second. *)
Lemma all_hits_and_crawls_concatenate (l1 l2 : list Src) ray plane :
  raycast_sources_Ray_all (l1 ++ l2) ray =
    raycast_sources_Ray_all l1 ray ++ raycast_sources_Ray_all l2 ray /\
  plane_intersections_crawl (l1 ++ l2) plane =
    plane_intersections_crawl l1 plane ++ plane_intersections_crawl l2 plane /\
  (forall h, In h (raycast_sources_Ray_all l1 ray) <->
             exists s, In s l1 /\ In h (raycast_all s ray)) /\
  (forall seg, In seg (plane_intersections_crawl l1 plane) <->
               exists s, In s l1 /\ In seg (plane_intersections_crawl_of s plane)).
Proof.
  unfold raycast_sources_Ray_all, plane_intersections_crawl.
  rewrite !flat_map_app. repeat split; try apply in_flat_map.
Qed.

(** [raycast_sources_Point]: a missing point, or a point the view does not
    map to the screen, gives the no-hit tuple whatever the sources are;
    any other point is cast along the ray of its screen point. *)
Lemma raycast_sources_Point_cases srcs :
  raycast_sources_Point dist_ltb Point2D_to_Ray Point_to_Point2D srcs None =
    inl no_hit /\
  (forall xyz, Point_to_Point2D xyz = None ->
     raycast_sources_Point dist_ltb Point2D_to_Ray Point_to_Point2D srcs (Some xyz) =
       inl no_hit) /\
  (forall xyz xy, Point_to_Point2D xyz = Some xy ->
     raycast_sources_Point dist_ltb Point2D_to_Ray Point_to_Point2D srcs (Some xyz) =
       raycast_sources_Ray dist_ltb srcs (Point2D_to_Ray xy)).
Proof.
  split; [reflexivity|]. split.
  - intros xyz H. cbn. now rewrite H.
  - intros xyz xy H. cbn. now rewrite H.
Qed.

End QueryProperties.

(** * Properties of the modal step *)

Section ModalProperties.
Context {Mesh Point Normal Dist Ray Plane Point2D Crawl : Type}.
Local Abbreviation Ctx := (@RFContext Mesh Point Normal Dist Ray Plane Crawl).
Variable dist_ltb : Dist -> Dist -> bool.
Variable Point2D_to_Ray : Point2D -> Ray.
Variable action_tool : list (string * string).
Variable select_toggle : StExn Ctx unit.
Variable tool_modal : RFTool -> StExn Ctx unit.
Implicit Types (c : Ctx) (ev : @Event Point2D).

Local Abbreviation the_modal :=
  (modal dist_ltb Point2D_to_Ray action_tool select_toggle tool_modal).
Local Abbreviation the_modal_main :=
  (modal_main action_tool select_toggle tool_modal).
Local Abbreviation the_dispatch :=
  (dispatch_mode action_tool select_toggle tool_modal).

Lemma raycast_sources_mouse_returns c ev :
  mouse_sources_well_formed Point2D_to_Ray c ev ->
  exists h, raycast_sources_mouse dist_ltb Point2D_to_Ray (rfsources c) (actions ev) = inl h.
Proof.
  intros Hwf. unfold raycast_sources_mouse, raycast_sources_Point2D.
  destruct (mouse (actions ev)) as [xy|] eqn:Hm; [|eauto].
  unfold raycast_sources_Ray.
  rewrite (raycast_sources_loop_best_of dist_ltb _ _ no_hit None).
  destruct (best_of_returns dist_ltb (fun s => raycast s (Point2D_to_Ray xy))
              (rfsources c) no_hit None (or_introl eq_refl) (Hwf xy Hm))
    as (r & o & -> & _).
  eauto.
Qed.

Lemma quiet_refl c : quiet c c.
Proof. split; [reflexivity|]. exists []. now rewrite app_nil_r. Qed.

Lemma quiet_silent c c' :
  session_core c' = session_core c -> trace c' = trace c -> quiet c c'.
Proof. intros E T. split; [exact E|]. exists []. now rewrite app_nil_r. Qed.

Lemma quiet_trans c1 c2 c3 : quiet c1 c2 -> quiet c2 c3 -> quiet c1 c3.
Proof.
  intros [E1 (l1 & T1 & F1)] [E2 (l2 & T2 & F2)]. split; [congruence|].
  exists (l1 ++ l2). split; [now rewrite T2, T1, app_assoc | now apply Forall_app].
Qed.

Lemma quiet_call c e : is_dispatch e = false -> quiet c (exec (call e) c).
Proof. intros H. split; [reflexivity|]. exists [e]. split; [reflexivity | now constructor]. Qed.

Lemma auto_save_quiet ev c :
  exists c', auto_save ev c = (inl tt, c') /\ quiet c c' /\ nav c' = nav c.
Proof.
  unfold auto_save.
  destruct (use_auto_save_temporary_files ev && (event_type ev =? "TIMER"))%string.
  - unfold bind, get, modify. destruct (time_to_save c) as [t|]; cbn.
    + destruct (PrimFloat.leb (t - time_delta (actions ev)) 0); cbn.
      * eexists. split; [reflexivity|]. split; [|reflexivity].
        split; [reflexivity|]. exists [save_as_mainfile]. now repeat constructor.
      * eexists. split; [reflexivity|]. split; [now apply quiet_silent | reflexivity].
    + destruct (PrimFloat.leb (auto_save_time ev * 60) 0); cbn.
      * eexists. split; [reflexivity|]. split; [|reflexivity].
        split; [reflexivity|]. exists [save_as_mainfile]. now repeat constructor.
      * eexists. split; [reflexivity|]. split; [now apply quiet_silent | reflexivity].
  - eexists. split; [reflexivity|]. split; [now apply quiet_silent | reflexivity].
Qed.


Lemma quiet_core c c' :
  quiet c c' ->
  tool c' = tool c /\ mode c' = mode c /\ undo c' = undo c /\ redo c' = redo c /\
  exists calls, trace c' = trace c ++ calls /\
    (forall m, ~ In (FSM_call m) calls) /\ (forall t, ~ In (tool_start t) calls).
Proof.
  intros [E (calls & T & F)]. unfold session_core in E.
  injection E as -> -> _ -> _ _ -> _ _. repeat split.
  exists calls. split; [exact T|]. rewrite Forall_forall in F.
  split; intros x Hin; apply list_elem_of_In, F in Hin; discriminate.
Qed.

(** C8, as the code has it. On an event that carries a navigation action,
    or on which the navigation timer still runs with [nav] set, the modal
    step never invokes the handler of the current mode and starts no tool:
    the tool, the mode and the history are unchanged, even if a tool-switch
    action fires on the same event. The step reports pass-through exactly
    when the event is not ended by an earlier step, that is unless
    ['tool help'] is pressed or the window manager reports hover (and no
    window or autosave action is in use); when it gets to the navigation
    test it sets [nav]. *)
Theorem C8_navigation_precedes_dispatch ev c :
  mouse_sources_well_formed Point2D_to_Ray c ev ->
  navigating (actions ev) = true \/ (timer (actions ev) = true /\ nav c = true) ->
  exists ret c',
    the_modal ev c = (inl ret, c') /\
    tool c' = tool c /\ mode c' = mode c /\ undo c' = undo c /\ redo c' = redo c /\
    (exists calls, trace c' = trace c ++ calls /\
       (forall m, ~ In (FSM_call m) calls) /\ (forall t, ~ In (tool_start t) calls)) /\
    (ret = ["pass"] <->
       using_ (actions ev) "window actions" = true \/
       using_ (actions ev) "autosave" = true \/
       (pressed (actions ev) "tool help" = false /\ window_manager_hover ev = false)) /\
    (using_ (actions ev) "window actions" = false ->
     using_ (actions ev) "autosave" = false ->
     pressed (actions ev) "tool help" = false ->
     window_manager_hover ev = false -> nav c' = true).
Proof.
  intros Hwf Hnav.
  destruct (raycast_sources_mouse_returns c ev Hwf) as [[[[hp hn] hi] hd] Hray].
  assert (Hq0 : quiet c (set_actions_hit hp hn c)) by now apply quiet_silent.
  cut (exists ret c',
         the_modal ev c = (inl ret, c') /\ quiet c c' /\
         (ret = ["pass"] <->
            using_ (actions ev) "window actions" = true \/
            using_ (actions ev) "autosave" = true \/
            (pressed (actions ev) "tool help" = false /\ window_manager_hover ev = false)) /\
         (using_ (actions ev) "window actions" = false ->
          using_ (actions ev) "autosave" = false ->
          pressed (actions ev) "tool help" = false ->
          window_manager_hover ev = false -> nav c' = true)).
  { intros (ret & c' & E & Hq & Hret & Hn). exists ret, c'.
    destruct (quiet_core c c' Hq) as (? & ? & ? & ? & ?). auto 10. }
  unfold modal, bind, get, lift. rewrite Hray. cbv beta iota zeta.
  unfold modify at 1. cbv beta iota.
  destruct (using_ (actions ev) "window actions") eqn:Hw.
  { eexists _, _. split; [reflexivity|]. split; [exact Hq0|]. split; [tauto | discriminate]. }
  destruct (using_ (actions ev) "autosave") eqn:Ha.
  { eexists _, _. split; [reflexivity|]. split; [exact Hq0|]. split; [tauto | discriminate]. }
  destruct (pressed (actions ev) "tool help") eqn:Hh.
  { eexists _, _. split; [reflexivity|]. split.
    - eapply quiet_trans; [exact Hq0|]. now apply quiet_call.
    - split; [|discriminate]. split; [discriminate|].
      intros [?|[?|[? _]]]; discriminate. }
  destruct (auto_save_quiet ev (set_actions_hit hp hn c)) as (c1 & -> & Hq1 & Hn1).
  cbv beta iota. unfold call at 1, modify at 1. cbv beta iota.
  set (c2 := set_trace (trace c1 ++ [window_manager_modal]) c1).
  assert (Hq2 : quiet c c2).
  { eapply quiet_trans; [exact Hq0|]. eapply quiet_trans; [exact Hq1|].
    now apply (quiet_call c1 window_manager_modal). }
  destruct (window_manager_hover ev) eqn:Hv.
  { unfold call, modify, ret. cbv beta iota.
    assert (Hq3 : quiet c (set_trace (trace c2 ++ [rfwidget_clear]) c2)).
    { eapply quiet_trans; [exact Hq2|]. now apply (quiet_call c2 rfwidget_clear). }
    cbn [exit_flag set_trace].
    destruct (exit_flag c2); eexists _, _;
      (split; [reflexivity|]); (split; [exact Hq3|]);
      (split; [|discriminate]); (split; [discriminate|]);
      intros [?|[?|[_ ?]]]; discriminate. }
  assert (Hcond : navigating (actions ev) || timer (actions ev) && nav c2 = true).
  { subst c2. cbn [nav set_trace]. rewrite Hn1. cbn [nav set_actions_hit].
    destruct Hnav as [->|[-> ->]]; [reflexivity | apply orb_true_r]. }
  rewrite Hcond. unfold call, modify, ret. cbv beta iota.
  destruct (negb (trackpad (actions ev))); cbv beta iota;
    eexists _, _; (split; [reflexivity|]); (split; [|split; [tauto | reflexivity]]).
  - eapply quiet_trans; [exact Hq2|]. split; [reflexivity|].
    eexists [_; _; _]. split; [cbn; now rewrite <- !app_assoc | now repeat constructor].
  - eapply quiet_trans; [exact Hq2|]. split; [reflexivity|].
    eexists [_; _]. split; [cbn; now rewrite <- !app_assoc | now repeat constructor].
Qed.

End ModalProperties.

(** * The claims at concrete sessions *)

Lemma Z_ltb_strict_weak_order : StrictWeakOrder Z.ltb.
Proof.
  split.
  - intros x. apply Z.ltb_irrefl.
  - intros x y z H1%Z.ltb_lt H2%Z.ltb_lt. apply Z.ltb_lt. lia.
  - intros x y z H%Z.ltb_lt. destruct (Z.ltb_spec x z); [now left|].
    right. apply Z.ltb_lt. lia.
Qed.

Lemma ex_hit_is_hit {Dist : Type} (d : Dist) : is_hit (ex_hit d) d.
Proof. now do 3 eexists. Qed.

Lemma ex_sources_Z_well_formed ray :
  Forall (fun s => well_formed_hit (raycast s ray)) ex_sources_Z.
Proof.
  unfold ex_sources_Z.
  constructor; [now left|].
  constructor; [right; exists 5%Z; now do 3 eexists|].
  constructor; [right; exists 2%Z; now do 3 eexists|].
  constructor.
Qed.

Lemma ex_context_wf depth : wf_context (ex_context depth).
Proof.
  split; cbn.
  - apply NoDup_singleton.
  - repeat constructor.
Qed.

(** Three pushes, then two pops: the mesh is as before the second push. *)
Lemma C1_snapshot_fidelity_witness :
  live_topology
    (run_ops (pop_script [add_vertex (9, 9, 9)%Z; id])
       (run_ops (push_script [(add_vertex (1, 0, 0)%Z, "a");
                              (add_vertex (2, 0, 0)%Z, "b");
                              (add_vertex (3, 0, 0)%Z, "c")]) (ex_context 3)))
  = Some [(2, 0, 0)%Z; (1, 0, 0)%Z; (0, 0, 0)%Z].
Proof.
  destruct (proj1 (@C1_snapshot_fidelity ExMesh Vec3 Vec3 Z ExRay ExPlane ExCrawl)
              (ex_context 3) [(add_vertex (1, 0, 0)%Z, "a")]
              [(add_vertex (3, 0, 0)%Z, "c")] (add_vertex (2, 0, 0)%Z) "b"
              [add_vertex (9, 9, 9)%Z; id])
    as (m & Hbefore & Hafter).
  - cbn. eauto.
  - cbn. lia.
  - reflexivity.
  - vm_compute in Hbefore. injection Hbefore as <-. exact Hafter.
Defined.

(** The sources reporting no hit, 5 and 2: the hit at 2 is returned. *)
Lemma C2_raycast_reduction_witness :
  raycast_sources_Ray Z.ltb ex_sources_Z ex_ray = inl (ex_hit 2%Z).
Proof.
  destruct (@C2_raycast_reduction _ _ _ _ _ _ Z.ltb Z_ltb_strict_weak_order
              ex_sources_Z ex_ray (ex_sources_Z_well_formed ex_ray))
    as (r & E & _ & _ & _ & Hex).
  rewrite E. f_equal.
  apply (Hex _ _ _ 5%Z 2%Z eq_refl eq_refl);
    [now do 3 eexists | now do 3 eexists | reflexivity].
Defined.

(** The same reduction on floating-point distances [none, 5.0, 2.0]. *)
Example raycast_sources_Ray_none_5_2 :
  raycast_sources_Ray PrimFloat.ltb ex_sources_float ex_ray = inl (ex_hit 2%float) /\
  raycast_sources_Ray PrimFloat.ltb
    [const_source no_hit []; const_source no_hit []] ex_ray = inl no_hit.
Proof. split; reflexivity. Qed.

(** [undo_pop] on a stack of one snapshot pops and restores it, and
    returns [None], not [True]. *)
Lemma C3_counterexample :
  let c := exec (undo_push "move" false) (ex_context 3) in
  length (undo c) = 1 /\
  undo (exec undo_pop c) = [] /\ rftarget (exec undo_pop c) = 1 /\
  result undo_pop c = inl PyNone /\
  result undo_pop c <> inl (PyBool true).
Proof. vm_compute. repeat split; discriminate. Qed.

Lemma C4_undo_stack_bounded_witness :
  length (undo (run_ops [op_push "a" false; op_push "b" false; op_undo;
                         op_redo; op_push "c" false; op_push "d" false]
                  (ex_context 2))) <= 2 /\
  st_action <$> undo (run_ops (push_script [(add_vertex (1, 0, 0)%Z, "a");
                                            (add_vertex (2, 0, 0)%Z, "b");
                                            (add_vertex (3, 0, 0)%Z, "c")])
                        (ex_context 2)) = ["c"; "b"].
Proof.
  destruct (@C4_undo_stack_bounded ExMesh Vec3 Vec3 Z ExRay ExPlane ExCrawl
              (ex_context 2)
              [op_push "a" false; op_push "b" false; op_undo; op_redo;
               op_push "c" false; op_push "d" false] eq_refl eq_refl)
    as (Hb & _ & _ & _ & Hfifo).
  split; [exact Hb|]. rewrite Hfifo. reflexivity.
Defined.

(** After move, rotate and one undo, a repeatable push of "move" is
    skipped and the redo stack keeps its snapshot; the redo that follows
    restores it. *)
Lemma C5_counterexample :
  let c := exec undo_pop (exec (undo_push "rotate" false)
                            (exec (undo_push "move" false) (ex_context 3))) in
  let c' := exec (undo_push "move" true) c in
  length (redo c') = 1 /\
  length (undo c') = 1 /\ length (undo (exec redo_pop c')) = 2 /\
  redo (exec redo_pop c') = [].
Proof. vm_compute. repeat split. Qed.

Lemma C5_push_clears_redo_witness :
  let c := exec undo_pop (exec (undo_push "rotate" false)
                            (exec (undo_push "move" false) (ex_context 3))) in
  redo (exec (undo_push "scale" true) c) = [].
Proof.
  intros c.
  exact (proj1 (@C5_push_clears_redo ExMesh Vec3 Vec3 Z ExRay ExPlane ExCrawl
                  c "scale" true eq_refl)).
Defined.

Lemma C6_repeatable_push_idempotent_witness :
  let c := exec (undo_push "move" false) (ex_context 3) in
  undo_push "move" true c = (inl PyNone, c).
Proof.
  intros c.
  exact (@C6_repeatable_push_idempotent ExMesh Vec3 Vec3 Z ExRay ExPlane ExCrawl
           c "move" (mkState "move" ex_tool 1) [] eq_refl eq_refl).
Defined.

Lemma C7_undo_redo_round_trip_witness :
  let c := exec (mutate (add_vertex (1, 0, 0)%Z))
             (exec (undo_push "move" false) (ex_context 3)) in
  live_topology (exec redo_pop (exec undo_pop c)) =
    Some [(1, 0, 0)%Z; (0, 0, 0)%Z] /\
  tool (exec redo_pop (exec undo_pop c)) = ex_tool.
Proof.
  intros c.
  assert (Hwf : wf_context c).
  { apply wf_context_mutate, wf_context_undo_push, ex_context_wf. }
  destruct (@C7_undo_redo_round_trip ExMesh Vec3 Vec3 Z ExRay ExPlane ExCrawl
              c Hwf ltac:(discriminate)) as (_ & Hl & Ht & _).
  split; [rewrite Hl | rewrite Ht]; reflexivity.
Defined.

(** A navigation event on which ['tool help'] is pressed as well: the step
    toggles the help and reports the empty set, not pass-through. *)
Lemma C8_counterexample :
  let ev := ex_event ["tool help"] true in
  navigating (actions ev) = true /\
  result (ex_modal ev) (ex_context 3) = inl [] /\
  result (ex_modal ev) (ex_context 3) <> inl ["pass"].
Proof. vm_compute. repeat split; discriminate. Qed.

Lemma C8_navigation_precedes_dispatch_witness :
  exists c',
    ex_modal (ex_event ["contours tool"] true) (ex_context 3) = (inl ["pass"], c') /\
    tool c' = ex_tool /\ nav c' = true.
Proof.
  destruct (@C8_navigation_precedes_dispatch ExMesh Vec3 Vec3 Z ExRay ExPlane
              ExPoint2D ExCrawl Z.ltb ex_Point2D_to_Ray ex_action_tool
              (ret tt) (fun _ => ret tt)
              (ex_event ["contours tool"] true) (ex_context 3))
    as (r & c' & E & Ht & _ & _ & _ & _ & Hret & Hnav).
  - intros xy _. apply ex_sources_Z_well_formed.
  - now left.
  - exists c'. unfold ex_modal. rewrite E.
    replace r with ["pass"] by (symmetry; apply Hret; right; right; now split).
    split; [reflexivity|]. split; [exact Ht|]. now apply Hnav.
Defined.

(** The same event without navigation does switch the tool. *)
Example modal_tool_switch_without_navigation :
  tool (exec (ex_modal (ex_event ["contours tool"] false)) (ex_context 3)) =
    {| tool_class := "Contours"; tool_id := 1 |}.
Proof. reflexivity. Qed.

Lemma C9_crawl_on_miss_witness :
  plane_intersection_crawl Z.ltb (fun _ => true) ex_sources_Z ex_ray ex_plane false =
    inl [ex_seg_a; ex_seg_b] /\
  plane_intersection_crawl Z.ltb (fun _ : Vec3 => true)
    [const_source (@no_hit Vec3 Vec3 Z) [ex_seg_a]] ex_ray ex_plane true = inl [].
Proof.
  split.
  - destruct (proj2 (proj2 (@C9_crawl_on_miss _ _ _ _ _ _ Z.ltb (fun _ => true)
                              ex_sources_Z ex_ray ex_plane false))
                Z_ltb_strict_weak_order (ex_sources_Z_well_formed ex_ray))
      as [_ H].
    destruct (H (fun _ => eq_refl) 1 (ex_hit 5%Z) 5%Z eq_refl ltac:(now do 3 eexists))
      as (j & s & d & Hj & Hd & Hnf & ->).
    destruct j as [|[|[|j]]]; cbn in Hj; try discriminate; injection Hj as <-.
    + now apply is_hit_not_no_hit in Hd.
    + destruct (Hnf 2 (ex_hit 2%Z) 2%Z eq_refl (ex_hit_is_hit _)) as [_ Hge].
      specialize (Hge ltac:(lia)).
      rewrite (is_hit_inj _ _ _ Hd (ex_hit_is_hit 5%Z)) in Hge. discriminate.
    + reflexivity.
  - apply (proj1 (@C9_crawl_on_miss _ _ _ _ _ _ Z.ltb (fun _ => true) _ ex_ray ex_plane true)).
    now repeat constructor.
Defined.

Lemma C10_Point2D_all_result_shape_witness :
  raycast_sources_Point2D_all ex_Point2D_to_Ray ex_sources_Z None =
    py_tuple (None, None, None, None) /\
  raycast_sources_Point2D_all ex_Point2D_to_Ray ex_sources_Z (Some (3, 4)%Z) =
    py_list [ex_hit 5%Z; ex_hit 2%Z] /\
  raycast_sources_Point2D Z.ltb ex_Point2D_to_Ray
    [const_source (@no_hit Vec3 Vec3 Z) []] (Some (3, 4)%Z) =
  raycast_sources_Point2D Z.ltb ex_Point2D_to_Ray
    [const_source (@no_hit Vec3 Vec3 Z) []] None.
Proof.
  split; [|split].
  - apply (@C10_Point2D_all_result_shape Vec3 Vec3 Z ExRay ExPlane ExPoint2D ExCrawl
             Z.ltb ex_Point2D_to_Ray ex_sources_Z).
  - apply (@C10_Point2D_all_result_shape Vec3 Vec3 Z ExRay ExPlane ExPoint2D ExCrawl
             Z.ltb ex_Point2D_to_Ray ex_sources_Z).
  - apply (@C10_Point2D_all_result_shape Vec3 Vec3 Z ExRay ExPlane ExPoint2D ExCrawl
             Z.ltb ex_Point2D_to_Ray).
    now repeat constructor.
Defined.

(** * Further properties: equations of the method monad *)

Lemma bind_get {S A} (k : S -> StExn S A) c : bind get k c = k c c.
Proof. reflexivity. Qed.

Lemma bind_modify {S A} (f : S -> S) (k : unit -> StExn S A) c :
  bind (modify f) k c = k tt (f c).
Proof. reflexivity. Qed.

Lemma bind_returns {S A B} (m : StExn S A) (k : A -> StExn S B) c a c' :
  m c = (inl a, c') -> bind m k c = k a c'.
Proof. intros E. unfold bind. now rewrite E. Qed.

Lemma bind_inl {S A B} (m : StExn S A) (k : A -> StExn S B) c r c' :
  bind m k c = (inl r, c') -> exists a c1, m c = (inl a, c1) /\ k a c1 = (inl r, c').
Proof. unfold bind. destruct (m c) as [[a|e] c1]; [eauto | discriminate]. Qed.

Section FrameRules.
Context {S B : Type} (proj : S -> B).

Lemma keeps_ret {A} (a : A) : keeps proj (ret a).
Proof. intros c. reflexivity. Qed.

Lemma keeps_raise {A} e : keeps proj (@raise S A e).
Proof. intros c. reflexivity. Qed.

Lemma keeps_get : keeps proj get.
Proof. intros c. reflexivity. Qed.

Lemma keeps_lift {A} (r : A + Exn) : keeps proj (lift r).
Proof. intros c. reflexivity. Qed.

Lemma keeps_modify (f : S -> S) : (forall c, proj (f c) = proj c) -> keeps proj (modify f).
Proof. intros H c. apply H. Qed.

Lemma keeps_bind {A A'} (m : StExn S A) (k : A -> StExn S A') :
  keeps proj m -> (forall a, keeps proj (k a)) -> keeps proj (bind m k).
Proof.
  intros Hm Hk c. unfold exec, bind. specialize (Hm c). unfold exec in Hm.
  destruct (m c) as [[a|e] c1]; cbn in *; [|exact Hm].
  rewrite <- Hm. apply Hk.
Qed.

Lemma keeps_if {A} (b : bool) (m1 m2 : StExn S A) :
  keeps proj m1 -> keeps proj m2 -> keeps proj (if b then m1 else m2).
Proof. now destruct b. Qed.

End FrameRules.

(** * Further properties of the history *)

Section HistoryExtras.
Context {Mesh Point Normal Dist Ray Plane Crawl : Type}.
Local Abbreviation Ctx := (@RFContext Mesh Point Normal Dist Ray Plane Crawl).
Implicit Types (c : Ctx) (s : State) (t : @RFTarget Mesh).
Local Arguments limit_stack_size : simpl never.

Lemma bind_call {A} e (k : unit -> StExn Ctx A) c :
  bind (call e) k c = k tt (set_trace (trace c ++ [e]) c).
Proof. reflexivity. Qed.

Lemma trace_set_trace c l : trace (set_trace l c) = l.
Proof. reflexivity. Qed.

Lemma set_trace_set_trace c l l' : set_trace l (set_trace l' c) = set_trace l c.
Proof. reflexivity. Qed.

(** The calls [set_tool] makes when it switches. *)
Lemma set_tool_switch c tl forceUpdate :
  negb forceUpdate && RFTool_eqb (tool c) tl = false ->
  set_tool tl forceUpdate c =
    (inl PyNone,
     set_trace (trace c ++ [tool_start tl; tool_update_tool_options tl; tool_update tl;
                            tool_selection_min_set_option (tool_class tl);
                            tool_selection_max_set_option (tool_class tl)])
       (set_tool_field tl c)).
Proof.
  intros H. unfold set_tool. rewrite bind_get, H, bind_modify, !bind_call.
  unfold ret. rewrite !trace_set_trace, !set_trace_set_trace, <- !app_assoc.
  reflexivity.
Qed.

Lemma RFTool_eqb_eq (a b : RFTool) : RFTool_eqb a b = true <-> a = b.
Proof.
  unfold RFTool_eqb. rewrite andb_true_iff, String.eqb_eq, Nat.eqb_eq.
  destruct a, b; cbn. split; [intros [-> ->]; reflexivity | intros [= -> ->]; auto].
Qed.

Lemma restore_state_eq c s :
  _restore_state s c =
    (inl PyNone,
     set_trace
       (trace c ++
        [rftarget_draw_replace_rfmesh (st_rftarget s); tool_start (st_tool s);
         tool_update_tool_options (st_tool s); tool_update (st_tool s);
         tool_selection_min_set_option (tool_class (st_tool s));
         tool_selection_max_set_option (tool_class (st_tool s))])
       (set_tool_field (st_tool s)
          (set_heap (alter dirty (st_rftarget s) (heap c))
             (set_rftarget (st_rftarget s) c)))).
Proof.
  unfold _restore_state, on_rftarget. rewrite !bind_modify, bind_call.
  erewrite bind_returns by (apply set_tool_switch; reflexivity).
  unfold ret. cbv beta. rewrite trace_set_trace, <- app_assoc.
  cbn [rftarget heap set_heap set_rftarget]. rewrite alter_rewrap.
  reflexivity.
Qed.

Lemma instrument_write_eq c action :
  instrument_write action c =
    (inl PyNone,
     set_trace (trace c ++
                if options_instrument c then [instrument_text_write action] else []) c).
Proof.
  unfold instrument_write. rewrite bind_get.
  destruct (options_instrument c); cbn [negb].
  - rewrite bind_call. reflexivity.
  - rewrite app_nil_r. now destruct c.
Qed.

Lemma undo_cancel_eq c top rest :
  undo c = top :: rest ->
  undo_cancel c =
    (inl PyNone,
     set_trace
       (trace c ++
        [rftarget_draw_replace_rfmesh (st_rftarget top); tool_start (st_tool top);
         tool_update_tool_options (st_tool top); tool_update (st_tool top);
         tool_selection_min_set_option (tool_class (st_tool top));
         tool_selection_max_set_option (tool_class (st_tool top))] ++
        (if options_instrument c then [instrument_text_write "cancel (undo)"] else []))
       (set_tool_field (st_tool top)
          (set_heap (alter dirty (st_rftarget top) (heap c))
             (set_rftarget (st_rftarget top) (set_undo rest c))))).
Proof.
  intros Hu. unfold undo_cancel. rewrite bind_get, Hu, bind_modify.
  erewrite bind_returns by apply restore_state_eq.
  erewrite bind_returns by apply instrument_write_eq.
  unfold ret. cbv beta. rewrite trace_set_trace, set_trace_set_trace, <- app_assoc.
  reflexivity.
Qed.

(** X1. Every history operation keeps the references of the session apart:
    from a context in which the live target and the snapshots are pairwise
    distinct objects of the store, any script of pushes, pops, redos,
    cancels and edits ends in such a context, so an edit of the live mesh
    can never reach a mesh held by a snapshot. *)
Theorem history_never_aliases (ops : list (@HistoryOp Mesh)) c f :
  wf_context c ->
  let c' := run_ops ops c in
  wf_context c' /\
  forall s, s ∈ undo c' ++ redo c' ->
    st_rftarget s <> rftarget c' /\
    heap (exec (mutate f) c') !! st_rftarget s = heap c' !! st_rftarget s.
Proof.
  intros Hwf c'. pose proof (wf_context_run_ops ops c Hwf) as Hwf'. fold c' in Hwf'.
  split; [exact Hwf'|]. intros s Hs. split.
  - destruct Hwf' as [Hnd _]. apply NoDup_cons_1_1 in Hnd. intros E. apply Hnd.
    rewrite <- E. unfold snapshot_refs. now apply list_elem_of_fmap_2.
  - now apply mutate_keeps_snapshots.
Qed.

(** X2. The eviction loop of [undo_push] ends within [len(undo)] iterations and
    leaves the [undo_depth] newest snapshots, in order; a stack within the
    bound is left alone. *)
Theorem eviction_keeps_newest (u : list State) depth :
  let kept := limit_stack_size (length u) depth u in
  kept = take depth u /\
  length kept = Nat.min depth (length u) /\
  (length u <= depth -> kept = u).
Proof.
  intros kept. subst kept. rewrite limit_stack_size_take by lia.
  split; [reflexivity|]. split; [apply length_take|]. apply take_ge.
Qed.

(** X3. The end of [__init__]: pushing ['initial'] and cancelling it at once
    leaves both stacks empty, the tool and the topology of the target as
    they were; the live target is now the copy (a new object), marked
    dirty, the renderer is given it, and the tool is started again. *)
Theorem touch_undo_stack_flushes c t :
  undo c = [] -> redo c = [] -> 0 < undo_depth c ->
  heap c !! rftarget c = Some t ->
  let c' := exec touch_undo_stack c in
  result touch_undo_stack c = inl PyNone /\
  undo c' = [] /\ redo c' = [] /\ tool c' = tool c /\
  rftarget c' = length (heap c) /\
  heap c' !! rftarget c' = Some (dirty t) /\
  heap c' !! rftarget c = Some t /\
  live_topology c' = live_topology c /\
  trace c' = trace c ++
    (if options_instrument c then [instrument_text_write "initial"] else []) ++
    [rftarget_draw_replace_rfmesh (length (heap c)); tool_start (tool c);
     tool_update_tool_options (tool c); tool_update (tool c);
     tool_selection_min_set_option (tool_class (tool c));
     tool_selection_max_set_option (tool_class (tool c))] ++
    (if options_instrument c then [instrument_text_write "cancel (undo)"] else []).
Proof.
  intros Hu Hr Hd Ht c'. subst c'.
  unfold touch_undo_stack, exec, result, bind.
  rewrite (undo_push_eq c "initial" false t eq_refl Ht). rewrite Hu.
  destruct (undo_depth c) as [|d]; [lia|]. cbn [take]. rewrite take_nil.
  erewrite undo_cancel_eq by reflexivity.
  assert (Hlen : rftarget c < length (heap c)) by (eapply lookup_lt_Some; eauto).
  unfold live_topology.
  cbn [fst snd undo redo tool rftarget heap trace options_instrument st_rftarget
         st_tool set_trace set_tool_field set_heap set_rftarget set_undo set_redo].
  rewrite list_lookup_alter_eq, list_lookup_alter_ne by lia.
  rewrite list_lookup_middle by reflexivity.
  rewrite lookup_app_l by lia. rewrite Ht, <- app_assoc.
  repeat split.
Qed.

(** X4. With [undo_depth = 0] the pushed snapshot is evicted at once and the
    cancel finds nothing: the session keeps its live target object. *)
Lemma touch_undo_stack_depth_0 c t :
  undo c = [] -> undo_depth c = 0 -> heap c !! rftarget c = Some t ->
  let c' := exec touch_undo_stack c in
  undo c' = [] /\ redo c' = [] /\ rftarget c' = rftarget c /\ tool c' = tool c.
Proof.
  intros Hu Hd Ht c'. subst c'.
  unfold touch_undo_stack, exec, bind.
  rewrite (undo_push_eq c "initial" false t eq_refl Ht). rewrite Hu, Hd.
  cbn [take]. rewrite undo_cancel_empty by reflexivity. cbn. repeat split.
Qed.

(** X5. Redo / undo round trip, the mirror of undo / redo: with a non-empty
    redo stack, [redo_pop] followed by [undo_pop] brings back the topology
    of the target and the tool, leaves the undo stack exactly as it was and
    the redo stack at its old length. *)
Theorem redo_undo_round_trip c :
  wf_context c -> redo c <> [] ->
  let c' := exec undo_pop (exec redo_pop c) in
  live_topology c' = live_topology c /\ is_Some (live_topology c) /\
  tool c' = tool c /\ undo c' = undo c /\ length (redo c') = length (redo c).
Proof.
  intros Hwf Hne c'. subst c'.
  destruct (redo c) as [|top rest] eqn:Hu; [congruence|].
  destruct (wf_context_live c Hwf) as [t Ht].
  pose proof (wf_context_redo_pop c Hwf) as Hwf1.
  destruct (redo_pop_fields c top rest t Hu Ht) as (Eu1 & Er1 & Et1 & Ea1 & Eh1 & _).
  set (c1 := exec redo_pop c) in *.
  destruct (wf_context_live c1 Hwf1) as [t1 Ht1].
  destruct (undo_pop_fields c1 _ _ t1 Eu1 Ht1) as (Eu2 & Er2 & Et2 & Ea2 & Eh2 & _).
  set (c2 := exec undo_pop c1) in *. clearbody c2 c1.
  assert (Hlen1 : length (heap c1) = S (length (heap c)))
    by (rewrite Eh1, length_alter, length_app; cbn; lia).
  assert (Htop : st_rftarget top < length (heap c)).
  { destruct Hwf as [_ Hv]. rewrite Forall_forall in Hv. apply Hv.
    apply elem_of_cons. right. unfold snapshot_refs. rewrite Hu.
    rewrite fmap_app, fmap_cons. apply elem_of_app. right.
    apply elem_of_cons. now left. }
  unfold live_topology. rewrite Ht.
  rewrite Ea2, Eh2, Et2, Er2, Eu2. cbn [st_rftarget st_tool length].
  rewrite Er1. repeat split; [|cbn; eauto].
  rewrite list_lookup_alter_eq.
  rewrite lookup_app_l by lia.
  rewrite Eh1, list_lookup_alter_ne by lia.
  rewrite list_lookup_middle by reflexivity. reflexivity.
Qed.

(** X6. [undo_cancel] restores what [undo_pop] would restore (the same live
    target object, tool and remaining undo stack) but records nothing: the
    redo stack is as before and no object is added to the store, so the
    state before the cancel cannot be brought back by a redo. *)
Theorem undo_cancel_records_nothing c top rest t :
  undo c = top :: rest -> heap c !! rftarget c = Some t ->
  undo (exec undo_cancel c) = undo (exec undo_pop c) /\
  rftarget (exec undo_cancel c) = rftarget (exec undo_pop c) /\
  tool (exec undo_cancel c) = tool (exec undo_pop c) /\
  redo (exec undo_cancel c) = redo c /\
  length (redo (exec undo_pop c)) = S (length (redo c)) /\
  length (heap (exec undo_cancel c)) = length (heap c) /\
  length (heap (exec undo_pop c)) = S (length (heap c)).
Proof.
  intros Hu Ht.
  destruct (undo_pop_fields c top rest t Hu Ht) as (-> & -> & -> & -> & -> & _).
  destruct (undo_cancel_fields c top rest Hu) as (-> & -> & -> & -> & -> & _).
  rewrite !length_alter, length_app. cbn. repeat split; lia.
Qed.

(** X7. [set_tool]: setting the tool that is already active, without
    [forceUpdate], does nothing at all; otherwise the tool becomes the
    active one and is started, its options and it are updated, and both
    tool selectors are set, in this order. *)
Theorem set_tool_lifecycle c tl forceUpdate :
  (forceUpdate = false -> tool c = tl -> set_tool tl forceUpdate c = (inl PyNone, c)) /\
  (forceUpdate = true \/ tool c <> tl ->
     tool (exec (set_tool tl forceUpdate) c) = tl /\
     trace (exec (set_tool tl forceUpdate) c) =
       trace c ++ [tool_start tl; tool_update_tool_options tl; tool_update tl;
                   tool_selection_min_set_option (tool_class tl);
                   tool_selection_max_set_option (tool_class tl)] /\
     session_core (exec (set_tool tl forceUpdate) c) =
       session_core (set_tool_field tl c)).
Proof.
  split.
  - intros -> <-. unfold set_tool, bind, get.
    now rewrite (proj2 (RFTool_eqb_eq (tool c) (tool c)) eq_refl).
  - intros H. unfold exec. rewrite set_tool_switch; [now repeat split|].
    destruct H as [->|H]; [reflexivity|].
    destruct forceUpdate; [reflexivity|]. cbn.
    destruct (RFTool_eqb (tool c) tl) eqn:E; [|reflexivity].
    now apply RFTool_eqb_eq in E.
Qed.

(** X8. Restoring always re-runs the tool lifecycle: [undo_cancel] on a
    non-empty stack hands the restored target to the renderer and starts
    the snapshot's tool again, even when that tool is the active one. *)
Theorem restore_restarts_tool c top rest :
  undo c = top :: rest ->
  trace (exec undo_cancel c) =
    trace c ++
    [rftarget_draw_replace_rfmesh (st_rftarget top); tool_start (st_tool top);
     tool_update_tool_options (st_tool top); tool_update (st_tool top);
     tool_selection_min_set_option (tool_class (st_tool top));
     tool_selection_max_set_option (tool_class (st_tool top))] ++
    (if options_instrument c then [instrument_text_write "cancel (undo)"] else []) /\
  forall t, heap c !! st_rftarget top = Some t ->
    heap (exec undo_cancel c) !! rftarget (exec undo_cancel c) = Some (dirty t).
Proof.
  intros Hu. unfold exec. rewrite (undo_cancel_eq c top rest Hu).
  cbn [snd trace heap rftarget set_trace set_tool_field set_heap set_rftarget set_undo].
  split; [reflexivity|]. intros t Ht. now rewrite list_lookup_alter_eq, Ht.
Qed.


End HistoryExtras.

(** * Further properties of the queries *)

Section QueryExtras.
Context {Point Normal Dist Ray Plane Point2D Crawl : Type}.
Local Abbreviation Src := (@RFSource Point Normal Dist Ray Plane Crawl).
Local Abbreviation Hit := (@Hit4 Point Normal Dist).
Variable dist_ltb : Dist -> Dist -> bool.
Implicit Types (srcs : list Src) (h best r : Hit) (bo : option Src)
  (query : Src -> Hit).

(** Once a hit is kept, a hit stays kept. *)
Lemma best_of_keeps_hit query srcs : forall best bo d,
  is_hit best d ->
  Forall (fun s => well_formed_hit (query s)) srcs ->
  exists r o d', best_of dist_ltb query srcs best bo = inl (r, o) /\ is_hit r d'.
Proof.
  induction srcs as [|s srcs IH]; intros best bo d Hd Hs; [cbn; eauto|].
  apply Forall_cons in Hs as [Hq Hs]. cbn.
  destruct Hq as [Eq|[d' Hd']].
  - rewrite Eq, (closer_no_hit _ _ _ Hd). eauto.
  - rewrite (closer_hits _ _ _ _ _ Hd' Hd). destruct (dist_ltb d' d); eauto.
Qed.

Lemma best_of_finds_hit query srcs s d :
  Forall (fun s => well_formed_hit (query s)) srcs ->
  s ∈ srcs -> is_hit (query s) d ->
  exists r o d', best_of dist_ltb query srcs no_hit None = inl (r, o) /\ is_hit r d'.
Proof.
  intros Hs Hin Hd. apply list_elem_of_split in Hin as (l1 & l2 & ->).
  apply Forall_app in Hs as [H1 H2]. apply Forall_cons in H2 as [_ H2].
  rewrite best_of_app.
  destruct (best_of_returns dist_ltb query l1 no_hit None (or_introl eq_refl) H1)
    as (b & o & -> & Hb).
  cbn. destruct Hb as [->|[db Hb]].
  - rewrite closer_from_no_hit. eapply best_of_keeps_hit; eauto.
  - rewrite (closer_hits _ _ _ _ _ Hd Hb).
    destruct (dist_ltb d db); eapply best_of_keeps_hit; eauto.
Qed.

Lemma best_of_raises query s rest best bo p n i d :
  is_hit best d -> query s = (Some p, n, i, None) ->
  best_of dist_ltb query (s :: rest) best bo = inr TypeError.
Proof. intros (p' & n' & i' & ->) Hs. cbn. now rewrite Hs. Qed.

(** X12. The reduction loop compares distances without checking them. A
    source that reports a point but no distance makes
    [raycast_sources_Ray] raise [TypeError] as soon as a hit is already
    kept, whatever sources follow; asked first, or after sources that all
    miss, its tuple is kept without a test, and the call then raises at the
    next hit. *)
Theorem raycast_sources_Ray_unchecked_distance (l1 l2 l3 : list Src) s s0 s1 ray p n i d :
  raycast s ray = (Some p, n, i, None) ->
  Forall (fun s => well_formed_hit (raycast s ray)) l1 ->
  is_hit (raycast s1 ray) d ->
  (s0 ∈ l1 -> is_hit (raycast s0 ray) d ->
     raycast_sources_Ray dist_ltb (l1 ++ s :: l2) ray = inr TypeError) /\
  (Forall (fun s => raycast s ray = no_hit) l1 ->
   Forall (fun s => raycast s ray = no_hit) l2 ->
     raycast_sources_Ray dist_ltb (l1 ++ s :: l2) ray = inl (Some p, n, i, None) /\
     raycast_sources_Ray dist_ltb (l1 ++ s :: l2 ++ s1 :: l3) ray = inr TypeError).
Proof.
  intros Hs H1 Hd1.
  assert (Hmiss : forall (l : list Src) b o,
             Forall (fun x => raycast x ray = no_hit) l ->
             b = no_hit \/ (exists p' n' i' d', b = (Some p', n', i', d')) ->
             exists o', best_of dist_ltb (fun x => raycast x ray) l b o = inl (b, o')).
  { induction l as [|x l IH]; intros b o Hl Hb; [cbn; eauto|].
    apply Forall_cons in Hl as [Hx Hl]. cbn. rewrite Hx.
    destruct Hb as [->|(p' & n' & i' & d' & ->)].
    - cbn. apply IH; auto.
    - cbn. apply IH; eauto 10. }
  unfold raycast_sources_Ray. split.
  - intros Hin Hd0.
    rewrite (raycast_sources_loop_best_of dist_ltb ray _ no_hit None), best_of_app.
    destruct (best_of_finds_hit (fun x => raycast x ray) l1 s0 d H1 Hin Hd0)
      as (r & o & d' & -> & Hr).
    now rewrite (best_of_raises (fun x => raycast x ray) s l2 r o p n i d' Hr Hs).
  - intros Hm1 Hm2.
    destruct (Hmiss l1 no_hit None Hm1 (or_introl eq_refl)) as [o1 E1].
    split.
    + rewrite (raycast_sources_loop_best_of dist_ltb ray _ no_hit None), best_of_app, E1.
      cbn. rewrite Hs. cbn.
      destruct (Hmiss l2 (Some p, n, i, None) (Some s) Hm2) as [o2 ->]; eauto 10.
    + rewrite (raycast_sources_loop_best_of dist_ltb ray _ no_hit None), best_of_app, E1.
      cbn. rewrite Hs. cbn. rewrite best_of_app.
      destruct (Hmiss l2 (Some p, n, i, None) (Some s) Hm2) as [o2 ->]; [eauto 10|].
      cbn. destruct Hd1 as (p1 & n1 & i1 & ->). reflexivity.
Qed.

Variable Point_to_Point2D : Point -> option Point2D.
Variable Point_to_Ray : Point -> float -> option Ray.
Variable Point2D_x Point2D_y : Point2D -> float.
Variable Point2D_truth : Point2D -> bool.
Variable Ray_truth : Ray -> bool.
Variable Normal_truth : Normal -> bool.
Variable normal_dot_ray_d : Normal -> Ray -> float.

(** X13. Occlusion is decided source by source: a point is visible through
    two sets of sources exactly when it is visible through each, so adding
    a source never makes a hidden point visible. *)
Theorem is_visible_app (l1 l2 : list Src) size point normal :
  is_visible Point_to_Point2D Point_to_Ray Point2D_x Point2D_y Point2D_truth
    Ray_truth Normal_truth normal_dot_ray_d (l1 ++ l2) size point normal =
  is_visible Point_to_Point2D Point_to_Ray Point2D_x Point2D_y Point2D_truth
    Ray_truth Normal_truth normal_dot_ray_d l1 size point normal &&
  is_visible Point_to_Point2D Point_to_Ray Point2D_x Point2D_y Point2D_truth
    Ray_truth Normal_truth normal_dot_ray_d l2 size point normal.
Proof.
  unfold is_visible.
  destruct (Point_to_Point2D point) as [p2D|]; [|reflexivity].
  destruct (negb (Point2D_truth p2D)); [reflexivity|].
  destruct (_ || _); [reflexivity|]. destruct (_ || _); [reflexivity|].
  destruct (Point_to_Ray point _) as [ray|]; [|reflexivity].
  destruct (negb (Ray_truth ray)); [reflexivity|].
  destruct (match normal with Some _ => _ | None => _ end); [reflexivity|].
  rewrite existsb_app. now rewrite negb_orb.
Qed.

(** X14. What a visible point has passed: the view maps it to a screen
    point and to a ray (cast with the offset [-0.001]), no source blocks
    that ray, and it is visible as well when no normal is given and when
    there is no source at all. *)
Theorem is_visible_unoccluded srcs size point normal :
  is_visible Point_to_Point2D Point_to_Ray Point2D_x Point2D_y Point2D_truth
    Ray_truth Normal_truth normal_dot_ray_d srcs size point normal = true ->
  exists p2D ray,
    Point_to_Point2D point = Some p2D /\
    Point_to_Ray point (-0.001)%float = Some ray /\
    Forall (fun s => raycast_hit s ray = false) srcs /\
    is_visible Point_to_Point2D Point_to_Ray Point2D_x Point2D_y Point2D_truth
      Ray_truth Normal_truth normal_dot_ray_d srcs size point None = true /\
    is_visible Point_to_Point2D Point_to_Ray Point2D_x Point2D_y Point2D_truth
      Ray_truth Normal_truth normal_dot_ray_d (@nil Src) size point normal = true.
Proof.
  unfold is_visible.
  destruct (Point_to_Point2D point) as [p2D|]; [|discriminate].
  destruct (negb (Point2D_truth p2D)); [discriminate|].
  destruct (_ || _); [discriminate|]. destruct (_ || _); [discriminate|].
  destruct (Point_to_Ray point _) as [ray|]; [|discriminate].
  destruct (negb (Ray_truth ray)); [discriminate|].
  destruct (match normal with Some _ => _ | None => _ end); [discriminate|].
  intros H. exists p2D, ray. repeat split; trivial.
  apply negb_true_iff in H. apply Forall_forall. intros s Hs.
  destruct (raycast_hit s ray) eqn:E; [|reflexivity].
  assert (existsb (fun rfsource => raycast_hit rfsource ray) srcs = true).
  { apply existsb_exists. exists s. split; [now apply list_elem_of_In | exact E]. }
  congruence.
Qed.

End QueryExtras.

(** * Further properties of the modal step *)

Section ModalExtras.
Context {Mesh Point Normal Dist Ray Plane Point2D Crawl : Type}.
Local Abbreviation Ctx := (@RFContext Mesh Point Normal Dist Ray Plane Crawl).
Variable dist_ltb : Dist -> Dist -> bool.
Variable Point2D_to_Ray : Point2D -> Ray.
Variable action_tool : list (string * string).
Variable select_toggle : StExn Ctx unit.
Variable tool_modal : RFTool -> StExn Ctx unit.
Implicit Types (c : Ctx) (ev : @Event Point2D).

Local Abbreviation the_modal :=
  (modal dist_ltb Point2D_to_Ray action_tool select_toggle tool_modal).
Local Abbreviation the_modal_main :=
  (modal_main action_tool select_toggle tool_modal).
Local Abbreviation the_dispatch :=
  (dispatch_mode action_tool select_toggle tool_modal).

Lemma keeps_mode_deepcopy : keeps (S := Ctx) mode deepcopy_rftarget.
Proof. intros c. unfold exec, deepcopy_rftarget. now destruct (heap c !! rftarget c). Qed.

Ltac frame :=
  repeat first
    [ apply keeps_bind; [|intros ?]
    | apply keeps_ret | apply keeps_raise | apply keeps_get | apply keeps_lift
    | apply keeps_if
    | apply keeps_modify; intros ?; reflexivity
    | apply keeps_mode_deepcopy ].

Lemma keeps_mode_set_tool t f : keeps (S := Ctx) mode (set_tool t f).
Proof. unfold set_tool. frame. Qed.

Lemma keeps_mode_undo_push a r : keeps (S := Ctx) mode (undo_push a r).
Proof. unfold undo_push. frame. Qed.

Lemma keeps_mode_undo_pop : keeps (S := Ctx) mode undo_pop.
Proof. unfold undo_pop. frame. destruct (undo a); frame. Qed.

Lemma keeps_mode_redo_pop : keeps (S := Ctx) mode redo_pop.
Proof. unfold redo_pop. frame. destruct (redo a); frame. Qed.

Lemma keeps_mode_auto_save ev : keeps (S := Ctx) mode (auto_save ev).
Proof.
  unfold auto_save. frame.
  - apply keeps_modify. intros c. now destruct (time_to_save c).
  - destruct (time_to_save a0); frame.
Qed.

(** Every path through [modal_main] ends in a bare [return]. *)
Lemma modal_main_returns_None ev c r c' :
  the_modal_main ev c = (inl r, c') -> r = None.
Proof.
  unfold modal_main. cbv zeta. intros H.
  repeat match type of H with
         | (if ?b then _ else _) _ = _ => destruct b
         | match ?o with Some _ => _ | None => _ end _ = _ => destruct o
         | bind _ _ _ = (inl _, _) => apply bind_inl in H as (? & ? & _ & H)
         end;
    now injection H.
Qed.

Lemma dispatch_mode_returns ev c : exists c', the_dispatch ev c = (inl tt, c').
Proof.
  unfold dispatch_mode. cbv zeta.
  match goal with
  | |- exists _, match ?b with _ => _ end = _ => destruct b as [[[]|[]] c1]
  end; eexists; reflexivity.
Qed.

(** X16. With the calls on collaborators taken as returning, the only
    exception [modal] lets through is the one of the pointer raycast,
    raised before anything is changed; in every other case the step
    returns one of the four sets [{'pass'}], [{}], [{'confirm'}] and
    [{'confirm', 'edit mode'}]. *)
Theorem modal_raises_only_from_raycast ev c :
  match raycast_sources_mouse dist_ltb Point2D_to_Ray (rfsources c) (actions ev) with
  | inr e => the_modal ev c = (inr e, c)
  | inl _ =>
      exists ret c', the_modal ev c = (inl ret, c') /\
        (ret = ["pass"] \/ ret = [] \/ ret = ["confirm"] \/
         ret = ["confirm"; "edit mode"])
  end.
Proof.
  unfold modal. cbv zeta. rewrite bind_get. unfold bind at 1, lift.
  destruct (raycast_sources_mouse _ _ _ _) as [[[[hp hn] hi] hd]|e]; [|reflexivity].
  rewrite bind_modify. set (c0 := set_actions_hit hp hn c). clearbody c0.
  destruct (using_ (actions ev) "window actions"); [unfold ret; eauto 10|].
  destruct (using_ (actions ev) "autosave"); [unfold ret; eauto 10|].
  destruct (pressed (actions ev) "tool help").
  { rewrite bind_call. unfold ret. eauto 10. }
  destruct (auto_save_quiet ev c0) as (c1 & E1 & _).
  rewrite (bind_returns _ _ _ _ _ E1), bind_call.
  set (c2 := set_trace _ c1). clearbody c2.
  destruct (window_manager_hover ev).
  { rewrite bind_call, bind_get. unfold ret. destruct (exit_flag _); eauto 10. }
  rewrite bind_get.
  destruct (navigating (actions ev) || timer (actions ev) && nav c2).
  { rewrite bind_call, bind_modify.
    destruct (negb (trackpad (actions ev)));
      [rewrite bind_call | unfold bind at 1, ret at 1];
      rewrite bind_call; unfold ret; eauto 10. }
  assert (Hpre : exists c3,
             (if nav c2 then do! modify (set_nav false) in call rfwidget_update
              else ret tt) c2 = (inl tt, c3)).
  { destruct (nav c2); [rewrite bind_modify|]; eexists; reflexivity. }
  destruct Hpre as [c3 E3]. rewrite (bind_returns _ _ _ _ _ E3).
  destruct (dispatch_mode_returns ev c3) as (c4 & E4).
  rewrite (bind_returns _ _ _ _ _ E4), bind_get. unfold ret.
  destruct (pressed (actions ev) "done" || exit_flag c4); [eauto 10|].
  destruct (pressed (actions ev) "edit mode"); eauto 10.
Qed.

(** X18. When no earlier step ends the tick, the handler of the current
    mode is dispatched from a context that differs from the initial one
    by the hit cache, the auto-save countdown and calls that dispatch
    nothing, with [nav] cleared; the returned set is then decided by
    ['done'], the exit flag and ['edit mode'], in this order, also when
    the handler raised. *)
Theorem modal_confirms_after_dispatch ev c hit :
  raycast_sources_mouse dist_ltb Point2D_to_Ray (rfsources c) (actions ev) = inl hit ->
  using_ (actions ev) "window actions" = false ->
  using_ (actions ev) "autosave" = false ->
  pressed (actions ev) "tool help" = false ->
  window_manager_hover ev = false ->
  navigating (actions ev) = false ->
  timer (actions ev) && nav c = false ->
  exists c1 c',
    quiet c c1 /\ nav c1 = false /\
    the_dispatch ev c1 = (inl tt, c') /\
    the_modal ev c =
      (inl (if pressed (actions ev) "done" || exit_flag c' then ["confirm"]
            else if pressed (actions ev) "edit mode" then ["confirm"; "edit mode"]
            else []), c').
Proof.
  intros Hray Hw Ha Hh Hv Hn Ht.
  unfold modal. cbv zeta. rewrite bind_get. unfold bind at 1, lift. rewrite Hray.
  destruct hit as [[[hp hn] hi] hd]. rewrite bind_modify, Hw, Ha, Hh.
  assert (Hq0 : quiet c (set_actions_hit hp hn c)) by now apply quiet_silent.
  assert (Hn0 : nav (set_actions_hit hp hn c) = nav c) by reflexivity.
  set (c0 := set_actions_hit hp hn c) in *. clearbody c0.
  destruct (auto_save_quiet ev c0) as (c1 & E1 & Hq1 & Hn1).
  rewrite (bind_returns _ _ _ _ _ E1), bind_call, Hv, bind_get.
  assert (Hq2 : quiet c (set_trace (trace c1 ++ [window_manager_modal]) c1)).
  { eapply quiet_trans; [exact Hq0|]. eapply quiet_trans; [exact Hq1|].
    now apply (quiet_call c1 window_manager_modal). }
  assert (Hn2 : nav (set_trace (trace c1 ++ [window_manager_modal]) c1) = nav c)
    by (cbn [nav set_trace]; congruence).
  set (c2 := set_trace _ c1) in *. clearbody c2.
  rewrite Hn, Hn2, Ht. cbn [orb].
  assert (Hpre : exists c3,
             (if nav c then do! modify (set_nav false) in call rfwidget_update
              else ret tt) c2 = (inl tt, c3) /\ quiet c c3 /\ nav c3 = false).
  { destruct (nav c) eqn:Hnav.
    - rewrite bind_modify. eexists. split; [reflexivity|]. split; [|reflexivity].
      eapply quiet_trans; [exact Hq2|]. split; [reflexivity|].
      exists [rfwidget_update]. split; [reflexivity | now repeat constructor].
    - eexists. split; [reflexivity|]. split; [exact Hq2 | congruence]. }
  destruct Hpre as (c3 & E3 & Hq3 & Hn3). rewrite (bind_returns _ _ _ _ _ E3).
  destruct (dispatch_mode_returns ev c3) as (c4 & E4).
  exists c3, c4. split; [exact Hq3|]. split; [exact Hn3|]. split; [exact E4|].
  rewrite (bind_returns _ _ _ _ _ E4), bind_get. unfold ret.
  destruct (pressed (actions ev) "done" || exit_flag c4); [reflexivity|].
  now destruct (pressed (actions ev) "edit mode").
Qed.

Lemma tool_shortcut_first (a : @Actions Point2D) l1 action cls l2 :
  Forall (fun b => pressed a (fst b) = false) l1 ->
  pressed a action = true ->
  tool_shortcut a (l1 ++ (action, cls) :: l2) = Some cls.
Proof.
  intros H1 Hp. induction H1 as [|[a1 c1] l1 Hx _ IH]; cbn in *.
  - now rewrite Hp.
  - now rewrite Hx.
Qed.

(** X19. A tool shortcut: when no history or profiler key is pressed, the
    first binding of [RFTool.action_tool] whose action is pressed decides;
    [modal_main] returns [None] with the active tool of that binding's
    class, and the history and the target are not touched. *)
Theorem tool_shortcut_first_binding ev c l1 action cls l2 :
  action_tool = l1 ++ (action, cls) :: l2 ->
  Forall (fun b => pressed (actions ev) (fst b) = false) l1 ->
  pressed (actions ev) action = true ->
  pressed (actions ev) "undo" = false -> pressed (actions ev) "redo" = false ->
  pressed (actions ev) "F2" = false -> pressed (actions ev) "F3" = false ->
  let c' := exec (the_modal_main ev) c in
  result (the_modal_main ev) c = inl None /\
  tool_class (tool c') = cls /\
  undo c' = undo c /\ redo c' = redo c /\ rftarget c' = rftarget c /\ heap c' = heap c.
Proof.
  intros Hat H1 Hp Hu Hr H2 H3 c'. subst c'.
  unfold exec, result, modal_main. cbv zeta.
  rewrite Hu, Hr, H2, H3, Hat, (tool_shortcut_first _ l1 action cls l2 H1 Hp).
  set (t := {| tool_class := cls; tool_id := next_tool_id c |}).
  set (c1 := set_next_tool_id (S (next_tool_id c)) c).
  assert (E : new_tool cls c = (inl t, c1)) by reflexivity.
  rewrite (bind_returns _ _ _ _ _ E).
  destruct (negb false && RFTool_eqb (tool c1) t) eqn:Hg.
  - assert (E1 : set_tool t false c1 = (inl PyNone, c1)).
    { unfold set_tool. now rewrite bind_get, Hg. }
    rewrite (bind_returns _ _ _ _ _ E1). unfold ret. cbn [fst snd].
    apply RFTool_eqb_eq in Hg. repeat split. now rewrite Hg.
  - rewrite (bind_returns _ _ _ _ _ (set_tool_switch c1 t false Hg)).
    unfold ret. cbn [fst snd]. repeat split.
Qed.

(** X20. The auto-save timer: an event that is not a timer tick, or a
    session without auto-save, leaves the context untouched; otherwise the
    countdown is running afterwards, at most one save is requested, and a
    save restarts the countdown at [auto_save_time * 60]. *)
Theorem auto_save_on_timer_only ev c :
  let c' := exec (auto_save ev) c in
  let ticking := use_auto_save_temporary_files ev && (event_type ev =? "TIMER")%string in
  result (auto_save ev) c = inl tt /\
  (ticking = false -> c' = c) /\
  (ticking = true -> time_to_save c' <> None) /\
  (trace c' = trace c \/
   (ticking = true /\ trace c' = trace c ++ [save_as_mainfile] /\
    time_to_save c' = Some (auto_save_time ev * 60)%float)).
Proof.
  cbv zeta. unfold exec, result, auto_save.
  destruct (use_auto_save_temporary_files ev && (event_type ev =? "TIMER")%string).
  - rewrite bind_modify, bind_get.
    destruct (time_to_save c) as [t|]; cbn [time_to_save set_time_to_save].
    + destruct (PrimFloat.leb _ 0).
      * rewrite bind_call. cbn. split; [reflexivity|]. split; [discriminate|].
        split; [discriminate|]. right. auto.
      * cbn. split; [reflexivity|]. split; [discriminate|]. split; [discriminate|].
        now left.
    + destruct (PrimFloat.leb _ 0).
      * rewrite bind_call. cbn. split; [reflexivity|]. split; [discriminate|].
        split; [discriminate|]. right. auto.
      * cbn. split; [reflexivity|]. split; [discriminate|]. split; [discriminate|].
        now left.
  - cbn. split; [reflexivity|]. split; [reflexivity|]. split; [discriminate|]. now left.
Qed.

Section ModeKept.
Hypothesis tool_modal_keeps_mode : forall t, keeps mode (tool_modal t).
Hypothesis select_toggle_keeps_mode : keeps mode select_toggle.

Lemma keeps_mode_modal_main ev : keeps mode (the_modal_main ev).
Proof.
  unfold modal_main. cbv zeta.
  apply keeps_if; [apply keeps_bind; [apply keeps_mode_undo_pop | frame]|].
  apply keeps_if; [apply keeps_bind; [apply keeps_mode_redo_pop | frame]|].
  apply keeps_if; [frame|]. apply keeps_if; [frame|].
  destruct (tool_shortcut (actions ev) action_tool).
  { apply keeps_bind; [unfold new_tool; frame | intros t].
    apply keeps_bind; [apply keeps_mode_set_tool | frame]. }
  apply keeps_if.
  { apply keeps_bind; [apply keeps_mode_undo_push | intros _].
    apply keeps_bind; [apply select_toggle_keeps_mode | frame]. }
  apply keeps_bind; [frame | intros _].
  apply keeps_if; [|frame].
  apply keeps_bind; [frame | intros c0].
  apply keeps_bind; [apply tool_modal_keeps_mode | frame].
Qed.

Lemma keeps_mode_dispatch ev : keeps mode (the_dispatch ev).
Proof.
  intros c. unfold exec, dispatch_mode.
  assert (Halert : forall lvl c1, mode c1 = mode c ->
            mode (snd ((do! call print_exception_info in call (alert_user lvl)) c1))
            = mode c) by (intros lvl c1 H; exact H).
  destruct (FSM action_tool select_toggle tool_modal (mode c)) as [handler|] eqn:Hf.
  - unfold FSM in Hf. destruct (mode c =? "main")%string; [|discriminate].
    injection Hf as <-.
    unfold bind at 1. unfold call at 1, modify at 1. cbv beta iota.
    set (c0 := set_trace _ c).
    assert (H0 : mode c0 = mode c) by reflexivity.
    unfold bind.
    pose proof (keeps_mode_modal_main ev c0) as Hm. unfold exec in Hm.
    pose proof (modal_main_returns_None ev c0) as Hr.
    destruct (modal_main action_tool select_toggle tool_modal ev c0) as [[r|e] c1].
    + rewrite (Hr r c1 eq_refl). cbn in *. congruence.
    + cbn in Hm. destruct e; apply Halert; congruence.
  - unfold raise. cbv beta iota. now apply Halert.
Qed.

(** X17. The step never leaves the mode it is in: every path through
    [modal_main] ends in a bare [return], so [modal] assigns no new mode,
    as long as the tools' own [modal] and [select_toggle] assign none.
    This holds as well when the handler raises, and for a mode that has no
    handler. *)
Theorem modal_keeps_mode ev c : mode (exec (the_modal ev) c) = mode c.
Proof.
  revert c. change (keeps mode (the_modal ev)). unfold modal. cbv zeta.
  apply keeps_bind; [apply keeps_get|]. intros c0.
  apply keeps_bind; [apply keeps_lift|]. intros [[[hp hn] hi] hd].
  apply keeps_bind; [frame | intros _].
  do 3 (apply keeps_if; [frame|]).
  apply keeps_bind; [apply keeps_mode_auto_save | intros _].
  apply keeps_bind; [frame | intros _].
  apply keeps_if; [frame|].
  apply keeps_bind; [frame | intros c1].
  apply keeps_if; [frame|].
  apply keeps_bind; [frame | intros _].
  apply keeps_bind; [apply keeps_mode_dispatch | intros _; frame].
Qed.

End ModeKept.

End ModalExtras.

(** * Properties of source and target discovery *)

Lemma on_visible_layer_common (sl ol : list bool) :
  on_visible_layer sl ol = true <->
  exists i, sl !! i = Some true /\ ol !! i = Some true.
Proof.
  revert ol. induction sl as [|vl sl IH]; intros [|o ol]; cbn.
  - split; [discriminate | intros (i & H & _); destruct i; discriminate].
  - split; [discriminate | intros (i & H & _); destruct i; discriminate].
  - split; [discriminate | intros (i & _ & H); destruct i; discriminate].
  - rewrite orb_true_iff, andb_true_iff, IH. split.
    + intros [[-> ->]|(i & H1 & H2)]; [now exists 0 | now exists (S i)].
    + intros ([|i] & H1 & H2); cbn in *.
      * left. split; congruence.
      * right. eauto.
Qed.

(** X21. The target is never among the sources: no object passes both
    [is_valid_source] and [is_valid_target], and what [get_target] returns
    is not in the list [get_sources] returns. *)
Theorem target_is_never_a_source ctx :
  (forall o, is_valid_source ctx o && is_valid_target ctx o = false) /\
  (forall t, get_target ctx = Some t -> ~ In t (get_sources ctx)).
Proof.
  assert (H : forall o, is_valid_source ctx o && is_valid_target ctx o = false).
  { intros [o|]; [|reflexivity]. unfold is_valid_source, is_valid_target.
    destruct (negb (BType_is (ob_type o) bpy_types_Object)); [reflexivity|].
    destruct (negb (BType_is (ob_data_type o) bpy_types_Mesh)); [reflexivity|].
    destruct (negb (on_visible_layer _ _)); [reflexivity|].
    destruct (ob_hide o); [reflexivity|].
    destruct (ob_select o), (is_active_object ctx o); cbn;
      try reflexivity; apply andb_false_r. }
  split; [exact H|]. intros t Ht Hin.
  unfold get_target in Ht. unfold get_sources in Hin.
  apply filter_In in Hin as [_ Hs].
  destruct (is_valid_target ctx (active_object ctx)) eqn:Hv; [|discriminate].
  rewrite Ht in Hv. specialize (H (Some t)). rewrite Hs, Hv in H. discriminate.
Qed.

(** X22. Among the mesh objects on a visible layer that are not hidden and
    have polygons, the target is the selected active object and every
    other one is a source. *)
Theorem eligible_object_is_source_or_target ctx o :
  ob_type o = bpy_types_Object -> ob_data_type o = bpy_types_Mesh ->
  on_visible_layer (scene_layers ctx) (ob_layers o) = true ->
  ob_hide o = false -> ob_data_polygons o <> 0 ->
  is_valid_target ctx (Some o) = ob_select o && is_active_object ctx o /\
  is_valid_source ctx (Some o) = negb (is_valid_target ctx (Some o)).
Proof.
  intros Ht Hd Hl Hh Hp. unfold is_valid_source, is_valid_target.
  rewrite Ht, Hd, Hl, Hh. cbn.
  apply Nat.eqb_neq in Hp. rewrite Hp.
  now destruct (ob_select o), (is_active_object ctx o).
Qed.

(** X23. An object that shares no layer with the scene is neither a source nor
    the target; layers beyond the shorter of the two lists are not
    compared. *)
Theorem no_common_layer_excludes ctx o :
  (forall i, scene_layers ctx !! i = Some true -> ob_layers o !! i = Some true -> False) ->
  is_valid_source ctx (Some o) = false /\ is_valid_target ctx (Some o) = false.
Proof.
  intros H.
  assert (Hl : on_visible_layer (scene_layers ctx) (ob_layers o) = false).
  { destruct (on_visible_layer _ _) eqn:E; [|reflexivity].
    apply on_visible_layer_common in E as (i & H1 & H2). destruct (H i H1 H2). }
  unfold is_valid_source, is_valid_target. rewrite Hl. cbn.
  now destruct (negb (BType_is (ob_type o) bpy_types_Object)),
               (negb (BType_is (ob_data_type o) bpy_types_Mesh)).
Qed.

(** X24. [has_valid_source] and [has_valid_target] agree with [get_sources] and
    [get_target]; the sources are scene objects, and the target, when
    there is one, is the active object. *)
Theorem discovery_consistent ctx :
  (has_valid_source ctx = true <-> get_sources ctx <> []) /\
  (has_valid_target ctx = true <-> exists t, get_target ctx = Some t) /\
  (forall o, In o (get_sources ctx) -> In o (scene_objects ctx)) /\
  (forall t, get_target ctx = Some t ->
     active_object ctx = Some t /\ ob_select t = true /\ ob_hide t = false).
Proof.
  split; [|split; [|split]].
  - unfold has_valid_source, get_sources. rewrite existsb_exists. split.
    + intros (o & Hin & Hv) E.
      assert (Hf : In o (List.filter (fun o => is_valid_source ctx (Some o))
                           (scene_objects ctx))) by (apply filter_In; auto).
      rewrite E in Hf. destruct Hf.
    + intros Hne. destruct (List.filter _ _) as [|o l] eqn:E; [congruence|].
      assert (Hf : In o (List.filter (fun o => is_valid_source ctx (Some o))
                           (scene_objects ctx))) by (rewrite E; now left).
      apply filter_In in Hf. eauto.
  - unfold has_valid_target. destruct (get_target ctx) as [t|].
    + split; eauto.
    + split; [discriminate | intros [t Ht]; discriminate].
  - intros o Hin. unfold get_sources in Hin. now apply filter_In in Hin.
  - intros t Ht. unfold get_target in Ht.
    destruct (is_valid_target ctx (active_object ctx)) eqn:Hv; [|discriminate].
    rewrite Ht in Hv. split; [exact Ht|]. unfold is_valid_target in Hv.
    destruct (negb (BType_is (ob_type t) bpy_types_Object)); [discriminate|].
    destruct (negb (BType_is (ob_data_type t) bpy_types_Mesh)); [discriminate|].
    destruct (negb (on_visible_layer _ _)); [discriminate|].
    destruct (ob_hide t); [discriminate|].
    destruct (ob_select t); [auto | discriminate].
Qed.

(** * The further properties at concrete sessions *)

Lemma ex_context_undone_wf : wf_context ex_context_undone.
Proof.
  apply wf_context_undo_pop, wf_context_mutate, wf_context_undo_push, ex_context_wf.
Qed.

Lemma history_never_aliases_witness :
  wf_context
    (run_ops [op_push "a" false; op_mutate (add_vertex (1, 0, 0)%Z); op_undo;
              op_redo; op_cancel] (ex_context 3)).
Proof.
  exact (proj1 (history_never_aliases
                  [op_push "a" false; op_mutate (add_vertex (1, 0, 0)%Z); op_undo;
                   op_redo; op_cancel] (ex_context 3) id (ex_context_wf 3))).
Defined.

(** Construction ends with empty stacks and the copy as live target. *)
Lemma touch_undo_stack_flushes_witness :
  undo (exec touch_undo_stack (ex_context 3)) = [] /\
  rftarget (exec touch_undo_stack (ex_context 3)) = 1.
Proof.
  destruct (touch_undo_stack_flushes (ex_context 3) _ eq_refl eq_refl
              ltac:(cbn; lia) eq_refl) as (_ & Hu & _ & _ & Ha & _).
  split; [exact Hu | exact Ha].
Defined.

Lemma touch_undo_stack_depth_0_witness :
  rftarget (exec touch_undo_stack (ex_context 0)) = 0.
Proof.
  destruct (touch_undo_stack_depth_0 (ex_context 0) _ eq_refl eq_refl eq_refl)
    as (_ & _ & Ha & _).
  exact Ha.
Defined.

Lemma redo_undo_round_trip_witness :
  live_topology (exec undo_pop (exec redo_pop ex_context_undone)) =
    Some [(0, 0, 0)%Z] /\
  undo (exec undo_pop (exec redo_pop ex_context_undone)) = [].
Proof.
  destruct (redo_undo_round_trip ex_context_undone ex_context_undone_wf
              ltac:(vm_compute; discriminate)) as (Hl & _ & _ & Hu & _).
  split; [rewrite Hl | rewrite Hu]; reflexivity.
Defined.

Lemma undo_cancel_records_nothing_witness :
  redo (exec undo_cancel (exec (undo_push "move" false) (ex_context 3))) = [] /\
  length (heap (exec undo_cancel (exec (undo_push "move" false) (ex_context 3)))) = 2.
Proof.
  destruct (undo_cancel_records_nothing
              (exec (undo_push "move" false) (ex_context 3)) _ _ _ eq_refl eq_refl)
    as (_ & _ & _ & Hr & _ & Hh & _).
  split; [rewrite Hr | rewrite Hh]; reflexivity.
Defined.

Lemma restore_restarts_tool_witness :
  trace (exec undo_cancel (exec (undo_push "move" false) (ex_context 3))) =
    [rftarget_draw_replace_rfmesh 1; tool_start ex_tool;
     tool_update_tool_options ex_tool; tool_update ex_tool;
     tool_selection_min_set_option "Contours";
     tool_selection_max_set_option "Contours"].
Proof.
  destruct (restore_restarts_tool
              (exec (undo_push "move" false) (ex_context 3)) _ _ eq_refl)
    as [Ht _].
  rewrite Ht. reflexivity.
Defined.


(** After the hits at 5 and 2, a source without a distance raises. *)
Lemma raycast_sources_Ray_unchecked_distance_witness :
  raycast_sources_Ray Z.ltb (ex_sources_Z ++ [ex_source_no_distance]) ex_ray =
    inr TypeError.
Proof.
  apply (proj1 (raycast_sources_Ray_unchecked_distance Z.ltb ex_sources_Z [] []
                  ex_source_no_distance (const_source (ex_hit 5%Z) [ex_seg_a])
                  (const_source (ex_hit 5%Z) [ex_seg_a]) ex_ray _ _ _ 5%Z
                  eq_refl (ex_sources_Z_well_formed ex_ray) (ex_hit_is_hit 5%Z))).
  - apply elem_of_cons. right. apply elem_of_cons. now left.
  - apply ex_hit_is_hit.
Defined.

Lemma is_visible_unoccluded_witness :
  ex_is_visible [const_source no_hit []] (0, 0, 1)%Z None = true /\
  ex_is_visible [] (0, 0, 1)%Z (Some (0, 0, 1)%Z) = true.
Proof.
  destruct (is_visible_unoccluded ex_Point_to_Point2D ex_Point_to_Ray fst snd
              (fun _ => true) (fun _ => true) (fun _ => true)
              (fun _ _ => (-1)%float) [const_source (@no_hit Vec3 Vec3 Z) []]
              (800, 600)%float (0, 0, 1)%Z (Some (0, 0, 1)%Z) eq_refl)
    as (p2D & ray & _ & _ & _ & H1 & H2).
  split; [exact H1 | exact H2].
Defined.

Lemma raycast_sources_Ray_order_independent_witness :
  (2 <? 2)%Z = false /\ (2 <? 2)%Z = false.
Proof.
  apply (@raycast_sources_Ray_order_independent _ _ _ _ _ _ Z.ltb Z_ltb_strict_weak_order
           ex_sources_Z (rev ex_sources_Z) ex_ray (ex_hit 2%Z) (ex_hit 2%Z)).
  - apply Permutation_rev.
  - apply ex_sources_Z_well_formed.
  - reflexivity.
  - reflexivity.
  - apply ex_hit_is_hit.
  - apply ex_hit_is_hit.
Defined.

Lemma ex_sources_Z_nearest_well_formed point max_dist :
  Forall (fun s => well_formed_hit (nearest s point max_dist)) ex_sources_Z.
Proof.
  unfold ex_sources_Z.
  constructor; [now left|].
  constructor; [right; exists 5%Z; now do 3 eexists|].
  constructor; [right; exists 2%Z; now do 3 eexists|].
  constructor.
Qed.

Lemma nearest_sources_Point_reduction_witness :
  exists r, nearest_sources_Point Z.ltb ex_sources_Z (0, 0, 0)%Z 100%Z = inl r.
Proof.
  destruct (@nearest_sources_Point_reduction _ _ _ _ _ _ Z.ltb Z_ltb_strict_weak_order
              ex_sources_Z (0, 0, 0)%Z 100%Z
              (ex_sources_Z_nearest_well_formed _ _)) as (r & E & _).
  exists r. exact E.
Defined.

Lemma modal_keeps_mode_witness :
  mode (exec (ex_modal (ex_event ["undo"] false)) (ex_context 3)) = "main".
Proof.
  exact (modal_keeps_mode Z.ltb ex_Point2D_to_Ray ex_action_tool (ret tt)
           (fun _ => ret tt) (fun _ _ => eq_refl) (fun _ => eq_refl)
           (ex_event ["undo"] false) (ex_context 3)).
Defined.

Lemma modal_confirms_after_dispatch_witness :
  result (ex_modal (ex_event ["done"] false)) (ex_context 3) = inl ["confirm"].
Proof.
  destruct (modal_confirms_after_dispatch Z.ltb ex_Point2D_to_Ray ex_action_tool
              (ret tt) (fun _ => ret tt) (ex_event ["done"] false) (ex_context 3)
              (ex_hit 2%Z) eq_refl eq_refl eq_refl eq_refl eq_refl eq_refl eq_refl)
    as (c1 & c' & _ & _ & _ & E).
  unfold ex_modal, result. rewrite E. reflexivity.
Defined.

(** Only the second binding is pressed: the tool is a PolyStrips. *)
Lemma tool_shortcut_first_binding_witness :
  tool_class
    (tool (exec (modal_main ex_action_tool (ret tt) (fun _ => ret tt)
                   (ex_event ["polystrips tool"] false)) (ex_context 3))) =
    "PolyStrips".
Proof.
  destruct (tool_shortcut_first_binding ex_action_tool (ret tt) (fun _ => ret tt)
              (ex_event ["polystrips tool"] false) (ex_context 3)
              [("contours tool", "Contours")] "polystrips tool" "PolyStrips" []
              eq_refl ltac:(repeat constructor) eq_refl eq_refl eq_refl eq_refl
              eq_refl) as (_ & Ht & _).
  exact Ht.
Defined.

Lemma eligible_object_is_source_or_target_witness :
  is_valid_source ex_bcontext (Some ex_source_object) =
    negb (is_valid_target ex_bcontext (Some ex_source_object)).
Proof.
  exact (proj2 (eligible_object_is_source_or_target ex_bcontext ex_source_object
                  eq_refl eq_refl eq_refl eq_refl ltac:(discriminate))).
Defined.

Lemma no_common_layer_excludes_witness :
  is_valid_source ex_bcontext (Some ex_hidden_layer_object) = false /\
  is_valid_target ex_bcontext (Some ex_hidden_layer_object) = false.
Proof.
  apply (no_common_layer_excludes ex_bcontext ex_hidden_layer_object).
  intros [|[|i]] H1 H2; cbn in *; discriminate.
Defined.
